(** * taxtastic: GreenGenes loader, species-name cleaner and tax-id remapper

    A shallow embedding of [taxtastic/greengenes.py] and of [action] of
    [taxtastic/subcommands/update_taxids.py].

    Python values are modelled as follows:
    - [str] is [string]; indexing, slicing, [startswith], [split], [rstrip],
      [<] and [' '.join] are the functions of module [Py];
    - an exception is a value of [exn], a computation that may raise has type
      [result A];
    - the SQLite tables [nodes], [names] and [source] are lists of records, in
      insertion order; their columns hold no NULL, except [source_id], and
      the schema, which is not part of the sources, adds no constraint;
    - the [dict] and [set] read by the remapper are a [gmap] and a [gset],
      a row of [csv.DictReader] is a [gmap] from column names to cells. *)

From Stdlib Require Import ZArith Lia.
From Stdlib Require Ascii String DecimalString DecimalNat DecimalPos.
From stdpp Require Import base option list sorting gmap strings.
Import (notations) Stdlib.Strings.Ascii.

(** ** Exceptions *)

Inductive exn : Type :=
  | IndexError
  | KeyError (key : string)
  | ValueError
  | InterfaceError.

Inductive result (A : Type) : Type :=
  | Ok (a : A)
  | Raise (e : exn).
Arguments Ok {A} a.
Arguments Raise {A} e.

(** Sequencing: the first exception raised is the one propagated.  The
    instances give [result] the notation [x ← r; k]. *)
Global Instance result_ret : MRet result := λ A a, Ok a.
Global Instance result_bind : MBind result := λ A B k r,
  match r with
  | Ok a => k a
  | Raise e => Raise e
  end.

(** ** Python string primitives *)

Module Py.

(** [s.startswith(p)] *)
Definition startswith (s p : string) : bool := String.prefix p s.

(** [s[i]] for a non-negative index; out of range raises [IndexError]. *)
Definition getitem (s : string) (i : nat) : result Ascii.ascii :=
  match String.get i s with
  | Some c => Ok c
  | None => Raise IndexError
  end.

(** [s[:n]]; a slice never raises, it is clamped to the string. *)
Fixpoint slice_to (n : nat) (s : string) : string :=
  match n, s with
  | S n', String c s' => String c (slice_to n' s')
  | _, _ => ""
  end.

(** [s[n:]] *)
Fixpoint slice_from (n : nat) (s : string) : string :=
  match n, s with
  | S n', String c s' => slice_from n' s'
  | _, _ => s
  end.

(** [sep.join(parts)] *)
Definition join (sep : string) (parts : list string) : string :=
  String.concat sep parts.

(** [a < b] on strings: lexicographic on character codes. *)
Definition lt (a b : string) : bool := String.ltb a b.

(** [c == ' '] on a single character. *)
Definition is_space_char (c : Ascii.ascii) : bool := Ascii.eqb c " "%char.

(** Truth value of a string: the empty string is false. *)
Definition truthy (s : string) : bool :=
  match s with
  | "" => false
  | String _ _ => true
  end.

(** [sorted(keys)] on strings: the ascending rearrangement. *)
Definition sorted (l : list string) : list string := merge_sort String.le l.

(** [bisect.bisect_left(a, x)], the binary search of the standard library:
<<
  lo, hi = 0, len(a)
  while lo < hi:
      mid = (lo + hi) // 2
      if a[mid] < x: lo = mid + 1
      else: hi = mid
  return lo
>>
    The interval shrinks at every turn, so [length a] turns are enough;
    [mid] is below [hi], hence an index of [a]. *)
Fixpoint bisect_loop (fuel : nat) (a : list string) (x : string)
    (lo hi : nat) : nat :=
  match fuel with
  | O => lo
  | S fuel' =>
      if decide (lo < hi)%nat then
        let mid := ((lo + hi) `div` 2)%nat in
        match a !! mid with
        | Some y =>
            if lt y x then bisect_loop fuel' a x (mid + 1) hi
            else bisect_loop fuel' a x lo mid
        | None => lo
        end
      else lo
  end.

Definition bisect_left (a : list string) (x : string) : nat :=
  bisect_loop (length a) a x 0 (length a).

(** Whitespace as [str.rstrip()] and [int()] see it: tab, line feed,
    vertical tab, form feed, carriage return and space. *)
Definition is_whitespace (c : Ascii.ascii) : bool := Ascii.is_space c.

(** [s.rstrip()] *)
Fixpoint rstrip (s : string) : string :=
  match s with
  | "" => ""
  | String c s' =>
      let r := rstrip s' in
      if is_whitespace c && negb (truthy r) then "" else String c r
  end.

(** [s.lstrip()] *)
Fixpoint lstrip (s : string) : string :=
  match s with
  | "" => ""
  | String c s' => if is_whitespace c then lstrip s' else s
  end.

(** [s.split(sep)] for a non-empty [sep]: the string is cut at the
    occurrences of [sep] found from left to right.  [skip] counts the
    characters of the occurrence being stepped over, [cur] is the piece
    read so far. *)
Fixpoint split_aux (sep : string) (skip : nat) (cur s : string)
    : list string :=
  match s with
  | "" => [cur]
  | String c s' =>
      match skip with
      | S k => split_aux sep k cur s'
      | O =>
          if String.prefix sep s
          then cur :: split_aux sep (String.length sep - 1) "" s'
          else split_aux sep 0 (cur +:+ String c "") s'
      end
  end.

Definition split (s sep : string) : list string := split_aux sep 0 "" s.

Definition digit (c : Ascii.ascii) : option Z :=
  Z.of_nat <$> Ascii.is_nat c.

Fixpoint digits_value (acc : Z) (s : string) : option Z :=
  match s with
  | "" => Some acc
  | String c s' => d ← digit c; digits_value (10 * acc + d)%Z s'
  end.

(** [int(s)] on a string: surrounding whitespace is ignored, then an
    optional sign and at least one decimal digit; anything else raises
    [ValueError]. *)
Definition int (s : string) : result Z :=
  let t := rstrip (lstrip s) in
  let '(negative, body) :=
    match t with
    | String "-" r => (true, r)
    | String "+" r => (false, r)
    | _ => (false, t)
    end in
  if truthy body then
    match digits_value 0 body with
    | Some v => Ok (if negative : bool then (- v)%Z else v)
    | None => Raise ValueError
    end
  else Raise ValueError.

(** [str(n)] on an integer. *)
Definition str (n : Z) : string :=
  DecimalString.NilEmpty.string_of_int (Z.to_int n).

(** ['{0:08d}'.format(n)] for [n >= 0]: the decimal digits, padded on the
    left with zeros up to eight characters. *)
Definition pad_zeros (width : nat) (d : Decimal.uint) : Decimal.uint :=
  Nat.iter (width - Decimal.nb_digits d) Decimal.D0 d.

Definition format_08d (n : nat) : string :=
  DecimalString.NilEmpty.string_of_uint (pad_zeros 8 (Nat.to_uint n)).

(** [l[-k]] for [k >= 1] *)
Definition getitem_neg {A : Type} (l : list A) (k : nat) : result A :=
  match reverse l !! (k - 1)%nat with
  | Some x => Ok x
  | None => Raise IndexError
  end.

(** [itertools.islice(l, start, None)] *)
Definition islice {A : Type} (l : list A) (start : nat) : list A :=
  drop start l.

(** [itertools.takewhile(p, l)] *)
Fixpoint takewhile {A : Type} (p : A → bool) (l : list A) : list A :=
  match l with
  | [] => []
  | x :: l' => if p x then x :: takewhile p l' else []
  end.

(** [s.isnumeric()] on ASCII text: at least one character, and all of them
    decimal digits. *)
Fixpoint all_digits (s : string) : bool :=
  match s with
  | "" => true
  | String c s' => bool_decide (is_Some (digit c)) && all_digits s'
  end.

Definition isnumeric (s : string) : bool := truthy s && all_digits s.


End Py.

(** ** SQLite expressions

    The store is reached through the [sqlite3] module, so the SQL text of
    the queries is evaluated by SQLite.  Only what the WHERE clauses need is
    modelled; all the columns read hold TEXT. *)

Module Sqlite.

(** A value by its storage class.  The magnitude of a number is not
    recorded: the only numbers built below are compared with TEXT values,
    and that comparison looks at the storage classes alone. *)
Inductive value : Type :=
  | Numeric
  | Text (s : string).

(** [X + Y] on two TEXT operands.  In SQLite [+] is the arithmetic
    addition (concatenation is written [||]): both strings are converted
    to numbers, a string that does not look like a number counting as 0,
    and the sum is an INTEGER or a REAL. *)
Definition add_text (x y : string) : value := Numeric.

(** [X <> Y] for a TEXT value [X] that is not a bare column, so that no
    affinity is applied: a TEXT value and a number are never equal. *)
Definition text_ne (x : string) (y : value) : bool :=
  match y with
  | Text t => negb (String.eqb x t)
  | Numeric => true
  end.

(** [LENGTH(X)] on TEXT *)
Definition length (x : string) : nat := String.length x.

(** [SUBSTR(X, Y, Z)] for [Y >= 1]: [Z] characters from the [Y]-th on. *)
Definition substr (x : string) (y z : nat) : string :=
  String.substring (y - 1) z x.

End Sqlite.

(** ** greengenes.py *)

Module Greengenes.

(** [_add_space(species, genus)]:
<<
  l = len(genus)
  if species.startswith(genus) and species[l] != ' ':
      return ' '.join((species[:l], species[l:]))
  return species
>>
    The conjunction is evaluated left to right, so [species[l]] is only
    evaluated when the prefix test succeeded. *)
Definition _add_space (species genus : string) : result string :=
  let l := String.length genus in
  if Py.startswith species genus then
    c ← Py.getitem species l ;
    if negb (Py.is_space_char c)
    then Ok (Py.join " " [Py.slice_to l species; Py.slice_from l species])
    else Ok species
  else Ok species.

(** *** The store

    The tables the module reads and writes, with the columns it names.
    Rows are kept in insertion order. *)

Module Node.
Record t : Type := mk {
  tax_id : string;
  parent_id : string;
  rank : string;
  source_id : option Z
}.
End Node.

Module Name.
Record t : Type := mk {
  tax_id : string;
  tax_name : string;
  is_primary : Z
}.
End Name.

Record db : Type := mkdb {
  nodes : list Node.t;
  names : list Name.t;
  source : list (Z * string)
}.

(** *** The species-name cleaner *)

(** [SELECT names.tax_name, names.tax_id FROM nodes JOIN names
    USING (tax_id) WHERE nodes.rank = 'genus'] *)
Definition select_genus (con : db) : list (string * string) :=
  n ← nodes con;
  m ← names con;
  if bool_decide (Node.tax_id n = Name.tax_id m ∧ Node.rank n = "genus")
  then [(Name.tax_name m, Name.tax_id m)]
  else [].

(** [dict(rows)]: a later row replaces an earlier one with the same key. *)
Definition dict (rows : list (string * string)) : gmap string string :=
  foldl (λ d kv, <[kv.1 := kv.2]> d) ∅ rows.

(** [sorted(all_genus)]: the keys of the dictionary in ascending order. *)
Definition sorted_keys (d : gmap string string) : list string :=
  Py.sorted (elements (dom d)).

(** [find_genus(tax_name)], with the list [keys] it closes over:
<<
  start = bisect.bisect_left(keys, tax_name[0])
  poss_genus = itertools.islice(keys, start, None)
  poss_genus = itertools.takewhile(lambda k: k < tax_name, poss_genus)
  for genus in poss_genus:
      if tax_name.startswith(genus):
          return genus
>>
    Falling off the end of the loop returns [None]. *)
Definition find_genus (keys : list string) (tax_name : string)
    : result (option string) :=
  c ← Py.getitem tax_name 0;
  let start := Py.bisect_left keys (String c "") in
  let poss_genus := Py.islice keys start in
  let poss_genus := Py.takewhile (λ k, Py.lt k tax_name) poss_genus in
  Ok (List.find (λ genus, Py.startswith tax_name genus) poss_genus).

(** The position in [keys] of a candidate for [tax_name]: at or after
    [start], below the name, and a prefix of it. *)
Definition candidate (keys : list string) (start : nat) (tax_name : string)
    (i : nat) (k : string) : Prop :=
  keys !! i = Some k ∧ (start ≤ i)%nat ∧
  Py.lt k tax_name = true ∧ Py.startswith tax_name k = true.

(** The candidates of the cleaning pass:
<<
  SELECT DISTINCT snode.tax_id, sname.tax_name
  FROM nodes snode INNER JOIN nodes gnode ON snode.parent_id = gnode.tax_id
      INNER JOIN names sname ON sname.tax_id = snode.tax_id
      INNER JOIN names gname ON gname.tax_id = gnode.tax_id
  WHERE snode.rank = 'species' AND gnode.rank = 'genus' AND
     SUBSTR(sname.tax_name, 1, LENGTH(gname.tax_name) + 1) <>
         gname.tax_name + ' ';
>>
    SQL leaves the order of the rows open; they are listed here in the
    order of a nested loop over the four tables. *)
Definition where_clause (snode gnode : Node.t) (sname gname : Name.t)
    : bool :=
  bool_decide (Node.rank snode = "species")
  && bool_decide (Node.rank gnode = "genus")
  && Sqlite.text_ne
       (Sqlite.substr (Name.tax_name sname) 1
          (Sqlite.length (Name.tax_name gname) + 1))
       (Sqlite.add_text (Name.tax_name gname) " ").

Definition select_candidates (con : db) : list (string * string) :=
  remove_dups (
    snode ← nodes con;
    gnode ← nodes con;
    sname ← names con;
    gname ← names con;
    if bool_decide (Node.parent_id snode = Node.tax_id gnode)
       && bool_decide (Name.tax_id sname = Node.tax_id snode)
       && bool_decide (Name.tax_id gname = Node.tax_id gnode)
       && where_clause snode gnode sname gname
    then [(Node.tax_id snode, Name.tax_name sname)]
    else []).

(** One turn of the staging loop:
<<
  genus = find_genus(tax_name)
  if genus:
      new_tax_name = _add_space(tax_name, genus)
      args.append((new_tax_name, tax_id))
>> *)
Definition stage (keys : list string) (args : list (string * string))
    (row : string * string) : result (list (string * string)) :=
  let '(tax_id, tax_name) := row in
  genus ← find_genus keys tax_name;
  match genus with
  | Some g =>
      if Py.truthy g then
        new_tax_name ← _add_space tax_name g;
        Ok (args ++ [(new_tax_name, tax_id)])
      else Ok args
  | None => Ok args
  end.

Fixpoint stage_all (keys : list string) (args : list (string * string))
    (rows : list (string * string)) : result (list (string * string)) :=
  match rows with
  | [] => Ok args
  | row :: rows' => args' ← stage keys args row; stage_all keys args' rows'
  end.

(** [UPDATE names SET tax_name = ? WHERE tax_id = ?] *)
Definition update_name (nms : list Name.t) (arg : string * string)
    : list Name.t :=
  (λ m, if bool_decide (Name.tax_id m = arg.2)
        then Name.mk (Name.tax_id m) arg.1 (Name.is_primary m)
        else m) <$> nms.

(** [cursor.executemany(stmt, args)] *)
Definition executemany (nms : list Name.t) (args : list (string * string))
    : list Name.t :=
  foldl update_name nms args.

(** What a call leaves behind: the store, the warnings logged and the
    exception that ended it, if any. *)
Record run : Type := mkrun {
  store : db;
  warnings : list string;
  raised : option exn
}.

(** [_clean_species(con)].  The updates are staged and then applied in one
    transaction; an exception while staging leaves the store as it was. *)
Definition _clean_species (con : db) : run :=
  let all_genus := dict (select_genus con) in
  let keys := sorted_keys all_genus in
  match stage_all keys [] (select_candidates con) with
  | Ok args =>
      mkrun (mkdb (nodes con) (executemany (names con) args) (source con))
            [] None
  | Raise e => mkrun con [] (Some e)
  end.

(** *** The lineage loader *)

(** Modelled from the spec: [taxdb.has_row(cursor, table)], which is not
    part of the sources, is the predicate "the table has any row". *)
Definition has_row {A : Type} (table : list A) : bool :=
  match table with
  | [] => false
  | _ :: _ => true
  end.

(** [_get_source_id(con)]: what [fetchone()] returns for
    [SELECT id FROM source where name = 'greengenes'], that is the first
    row, a tuple of one integer, or [None]. *)
Definition _get_source_id (con : db) : option (list Z) :=
  (λ r, [r.1]) <$>
    List.find (λ r, bool_decide (r.2 = "greengenes")) (source con).

(** The value of [source_id] as a parameter of the INSERT.  The function
    passes on what [_get_source_id] returned: the [sqlite3] module binds
    [None] as NULL, and raises [InterfaceError] for a tuple, a type it has
    no conversion for. *)
Definition bind_source_id (source_id : option (list Z))
    : result (option Z) :=
  match source_id with
  | None => Ok None
  | Some _ => Raise InterfaceError
  end.

(** ['GG{0:08d}'.format(n)] *)
Definition format_tax_id (n : nat) : string := "GG" +:+ Py.format_08d n.

(** The state the loop of the loader runs on: the tables and the next
    value of [count = itertools.count()]. *)
Record loader : Type := mkloader {
  con : db;
  count : nat
}.

(** [SELECT tax_id from names WHERE tax_name = ?] followed by
    [fetchone()]: the first matching row. *)
Definition select_tax_id (nms : list Name.t) (name : string)
    : option string :=
  Name.tax_id <$> List.find (λ m, bool_decide (Name.tax_name m = name)) nms.

(** [_get_or_insert(name, rank, parent_id, source_id)]:
<<
  cursor.execute("SELECT tax_id from names WHERE tax_name = ?", [name])
  tax_id = cursor.fetchone()
  if tax_id:
      return tax_id[0]
  tax_id = 'GG{0:08d}'.format(count.next())
  if parent_id is None:
      parent_id = tax_id
  cursor.execute("INSERT INTO nodes ...", (tax_id, parent_id, rank, source_id))
  cursor.execute("INSERT INTO names ...", (tax_id, name))
  return tax_id
>> *)
Definition _get_or_insert (name rank : string) (parent_id : option string)
    (source_id : option (list Z)) (st : loader) : result (loader * string) :=
  match select_tax_id (names (con st)) name with
  | Some tax_id => Ok (st, tax_id)
  | None =>
      let tax_id := format_tax_id (count st) in
      let parent_id := default tax_id parent_id in
      let c := con st in
      bound ← bind_source_id source_id;
      Ok (mkloader
            (mkdb (nodes c ++ [Node.mk tax_id parent_id rank bound])
                  (names c ++ [Name.mk tax_id name 1])
                  (source c))
            (S (count st)),
          tax_id)
  end.

(** The walk over one lineage:
<<
  parent = None
  for rank, name in classes:
      parent = _get_or_insert(name, rank, parent, source_id)
>> *)
Fixpoint walk (source_id : option (list Z))
    (classes : list (string * string)) (parent : option string)
    (st : loader) : result loader :=
  match classes with
  | [] => Ok st
  | (rank, name) :: classes' =>
      r ← _get_or_insert name rank parent source_id st;
      walk source_id classes' (Some r.2) r.1
  end.

(** The loop over [rows].  [rows] is an iterator: producing its next
    element may raise, which ends the loop, as does an exception in the
    walk. *)
Fixpoint load_loop (source_id : option (list Z))
    (rows : list (result (list (string * string)))) (st : loader)
    : result loader :=
  match rows with
  | [] => Ok st
  | Raise e :: _ => Raise e
  | Ok classes :: rows' =>
      st' ← walk source_id classes None st;
      load_loop source_id rows' st'
  end.

(** [_load_rows(rows, con)].  The insertions run in one transaction,
    committed at the end and rolled back by an exception. *)
Definition _load_rows (rows : list (result (list (string * string))))
    (c : db) : run :=
  let source_id := _get_source_id c in
  if has_row (nodes c) || has_row (names c) then
    mkrun c ["nodes table has data. not updating."] None
  else
    match load_loop source_id rows (mkloader c 0) with
    | Ok st => mkrun (con st) [] None
    | Raise e => mkrun c [] (Some e)
    end.

(** *** Invariants of the loader *)

(** The loop keeps the two tables in step: the nodes carry the identifiers
    of the counter values used so far, in order, each with one name, and no
    name is stored twice. *)
Record loader_inv (st : loader) : Prop := mk_loader_inv {
  inv_ids :
    Node.tax_id <$> nodes (con st) = format_tax_id <$> seq 0 (count st);
  inv_names :
    Name.tax_id <$> names (con st) = Node.tax_id <$> nodes (con st);
  inv_nodup : NoDup (Name.tax_name <$> names (con st))
}.



(** [c'] is [c] with rows appended to [nodes] and [names]. *)
Definition extends (c c' : db) : Prop :=
  ∃ ns ms, nodes c' = nodes c ++ ns ∧ names c' = names c ++ ms ∧
           source c' = source c.

(** *** The lineage parser *)

(** Modelled from the spec: [taxdb.root_name], which is not part of the
    sources; the lineages of the spec start with the entry (root, root). *)
Definition root_name : string := "root".

Definition _rank_map : gmap string string :=
  list_to_map
    [("k", "kingdom"); ("p", "phylum"); ("c", "class"); ("o", "order");
     ("f", "family"); ("g", "genus"); ("s", "species")].

(** [_rank_map[cls_key]] *)
Definition rank_of (cls_key : string) : result string :=
  match _rank_map !! cls_key with
  | Some r => Ok r
  | None => Raise (KeyError cls_key)
  end.

(** [[_rank_map[cls_key], cls or None] for cls_key, cls in split if cls]:
    every item must unpack into two strings; the rank is looked up only
    for an item that passes the filter. *)
Fixpoint classifications (split : list (list string))
    : result (list (string * string)) :=
  match split with
  | [] => Ok []
  | [cls_key; cls] :: split' =>
      if Py.truthy cls then
        r ← rank_of cls_key;
        tl ← classifications split';
        Ok ((r, cls) :: tl)
      else classifications split'
  | _ :: _ => Raise ValueError
  end.

(** The items of [split] that the filter [if cls] lets through, and what
    the comprehension makes of such an item. *)
Definition named (item : list string) : bool :=
  match item with
  | [_; cls] => Py.truthy cls
  | _ => false
  end.

Definition kept (item : list string) (entry : string * string) : Prop :=
  ∃ cls_key, item = [cls_key; entry.2] ∧ _rank_map !! cls_key = Some entry.1.

(** [result[-1][1] = v] *)
Definition set_last_name (res : list (string * string)) (v : string)
    : list (string * string) :=
  match reverse res with
  | [] => res
  | (r, _) :: before => reverse ((r, v) :: before)
  end.

(** The special handling of a species that follows its genus:
<<
  if result[-1][0] == 'species' and result[-2][0] == 'genus':
      species = result[-1][1]
      genus = result[-2][1]
      if species.startswith(genus) and species[len(genus)] != ' ':
          result[-1][1] = _add_space(species, genus)
>> *)
Definition fix_species (res : list (string * string))
    : result (list (string * string)) :=
  last ← Py.getitem_neg res 1;
  if bool_decide (last.1 = "species") then
    before ← Py.getitem_neg res 2;
    if bool_decide (before.1 = "genus") then
      let species := last.2 in
      let genus := before.2 in
      if Py.startswith species genus then
        c ← Py.getitem species (String.length genus);
        if negb (Py.is_space_char c) then
          v ← _add_space species genus;
          Ok (set_last_name res v)
        else Ok res
      else Ok res
    else Ok res
  else Ok res.

(** [_parse_classes(classes, otu_id)] *)
Definition _parse_classes (classes : string) (otu_id : Z)
    : result (list (string * string)) :=
  let split := (λ i, Py.split i "__") <$> Py.split classes ";" in
  cls ← classifications split;
  res ← fix_species ((root_name, root_name) :: cls);
  Ok (res ++ [("otu", Py.str otu_id)]).

(** The body of the loop of [_parse_gg]:
<<
  otu_id, classes = line.rstrip().split('\t')
  otu_id = int(otu_id)
  classes = _parse_classes(classes, otu_id)
  yield classes
>> *)
Definition parse_line (line : string) : result (list (string * string)) :=
  match Py.split (Py.rstrip line) (String "009" "") with
  | [otu_id; classes] =>
      otu_id ← Py.int otu_id;
      _parse_classes classes otu_id
  | _ => Raise ValueError
  end.

(** A lineage as the parser makes them: it starts with the root entry. *)
Definition rooted (classes : list (string * string)) : Prop :=
  ∃ tl, classes = (root_name, root_name) :: tl.


(** [_parse_gg(handle)]: a generator, one lineage per line, each computed
    when the consumer asks for it. *)
Definition _parse_gg (handle : list string)
    : list (result (list (string * string))) :=
  parse_line <$> handle.

(** [db_load(con, archive)], where [archive] stands for the lines of the
    taxonomy member of the tar file:
<<
  if not taxdb.has_row(cursor, 'nodes'):
      with tar_member(archive) as handle:
          rows = _parse_gg(handle)
          _load_rows(rows, con)
  _clean_species(con)
>>
    No constraint of the schema is modelled, so [sqlite3.IntegrityError],
    the one exception that [db_load] wraps, does not occur; any other
    exception ends the call. *)
Definition db_load (c : db) (archive : list string) : run :=
  let loaded :=
    if negb (has_row (nodes c))
    then _load_rows (_parse_gg archive) c
    else mkrun c [] None in
  match raised loaded with
  | Some e => loaded
  | None =>
      let cleaned := _clean_species (store loaded) in
      mkrun (store cleaned) (warnings loaded ++ warnings cleaned)
            (raised cleaned)
  end.

(** *** Reference points for the loader *)

(** The rows that a walk appends for a lineage of names that are all new,
    starting with the counter at [k] and below the node [parent]: each
    entry gets the next identifier and hangs under the entry before it. *)
Fixpoint chain (k : nat) (parent : option string)
    (classes : list (string * string)) : list (Node.t * Name.t) :=
  match classes with
  | [] => []
  | (rank, name) :: classes' =>
      let tax_id := format_tax_id k in
      (Node.mk tax_id (default tax_id parent) rank None,
       Name.mk tax_id name 1)
      :: chain (S k) (Some tax_id) classes'
  end.

(** The exception of the first element of an iterator that raises one. *)
Fixpoint first_raise {A : Type} (rows : list (result A)) : option exn :=
  match rows with
  | [] => None
  | Ok _ :: rows' => first_raise rows'
  | Raise e :: _ => Some e
  end.

End Greengenes.

(** ** update_taxids.py: the loop over the input rows *)

Module UpdateTaxids.

(** What the loop reads from [args] and from the database:
    [taxid_column] is the name of the id column once resolved,
    [unknowns] tells whether a file for the unknown rows was given,
    [all_tax_ids] is the set of the [tax_id]s of table [nodes],
    [mergedict] the dictionary of table [merged].

    A row is a dictionary from column names to cells.  A column without a
    binding stands for the cell [None] that [csv.DictReader] puts where the
    input line was too short. *)
Record config : Type := mkconfig {
  taxid_column : string;
  unknown_action : string;
  unknowns : bool;
  all_tax_ids : gset string;
  mergedict : gmap string string
}.

(** The files written so far, and the message of [sys.exit] once it was
    called. *)
Record output : Type := mkoutput {
  written : list (gmap string string);
  unknown_rows : list (gmap string string);
  exited : option string
}.

(** [tax_id in all_tax_ids] *)
Definition is_valid (cfg : config) (tax_id : option string) : bool :=
  match tax_id with
  | Some t => bool_decide (t ∈ all_tax_ids cfg)
  | None => false
  end.

(** [mergedict[tax_id]] guarded by [tax_id in mergedict] *)
Definition merged (cfg : config) (tax_id : option string)
    : option string :=
  t ← tax_id; mergedict cfg !! t.

(** A row is unknown when its id is neither valid nor merged. *)
Definition unknown (cfg : config) (row : gmap string string) : Prop :=
  is_valid cfg (row !! taxid_column cfg) = false ∧
  merged cfg (row !! taxid_column cfg) = None.

Global Instance unknown_dec cfg row : Decision (unknown cfg row).
Proof. unfold unknown. apply _. Defined.

(** [f'Error: tax_id {tax_id} is unknown'] *)
Definition exit_message (tax_id : option string) : string :=
  "Error: tax_id " +:+ default "None" tax_id +:+ " is unknown".

(** The body of the loop:
<<
  tax_id = row[taxid_column]
  if tax_id in all_tax_ids:
      pass  # write row without modification
  elif tax_id in mergedict:
      row[taxid_column] = mergedict[tax_id]
  else:  # tax_id is unknown
      if args.unknowns:
          unknowns.writerow(row)
      if ignore:
          pass
      elif drop:
          continue
      elif error:
          sys.exit(f'Error: tax_id {tax_id} is unknown')
  writer.writerow(row)
>> *)
Definition step (cfg : config) (out : output) (row : gmap string string)
    : output :=
  let drop := bool_decide (unknown_action cfg = "drop") in
  let error := bool_decide (unknown_action cfg = "error") in
  let ignore := bool_decide (unknown_action cfg = "ignore") in
  let tax_id := row !! taxid_column cfg in
  if is_valid cfg tax_id then
    mkoutput (written out ++ [row]) (unknown_rows out) None
  else
    match merged cfg tax_id with
    | Some new_tax_id =>
        mkoutput (written out ++ [<[taxid_column cfg := new_tax_id]> row])
                 (unknown_rows out) None
    | None =>
        let unk :=
          if unknowns cfg then unknown_rows out ++ [row]
          else unknown_rows out in
        if ignore then mkoutput (written out ++ [row]) unk None
        else if drop then mkoutput (written out) unk None
        else if error then
          mkoutput (written out) unk (Some (exit_message tax_id))
        else mkoutput (written out ++ [row]) unk None
    end.

(** [for row in reader: ...]; [sys.exit] ends the run at once. *)
Fixpoint loop (cfg : config) (out : output)
    (reader : list (gmap string string)) : output :=
  match reader with
  | [] => out
  | row :: reader' =>
      let out' := step cfg out row in
      match exited out' with
      | Some _ => out'
      | None => loop cfg out' reader'
      end
  end.

(** The row loop of [action(args)], started on empty files. *)
Definition action (cfg : config) (reader : list (gmap string string))
    : output :=
  loop cfg (mkoutput [] [] None) reader.

(** *** Before the loop: the id column and the header lines *)

(** The arguments that [action] reads before the loop. *)
Module Args.
Record t : Type := mk {
  tax_id_file : bool;
  taxid_column : string;
  unknowns : bool;
  unknown_action : string
}.
End Args.





(** What the loop makes of a row that it writes: the row itself, or the row
    with the id that its id is mapped to. *)
Definition remap (cfg : config) (row : gmap string string)
    : gmap string string :=
  let tax_id := row !! taxid_column cfg in
  if is_valid cfg tax_id then row
  else
    match merged cfg tax_id with
    | Some new_tax_id => <[taxid_column cfg := new_tax_id]> row
    | None => row
    end.

(** Every id that the mapping leads to is an id of the database. *)
Definition targets_valid (cfg : config) : Prop :=
  ∀ old_tax_id new_tax_id,
    mergedict cfg !! old_tax_id = Some new_tax_id →
    new_tax_id ∈ all_tax_ids cfg.

End UpdateTaxids.

(** * Properties *)

(** ** Strings *)

Section strings.
Implicit Types (s p r g : string) (c : Ascii.ascii).

Lemma app_empty_l s : "" +:+ s = s.
Proof. reflexivity. Qed.

Lemma app_cons c s r : String c s +:+ r = String c (s +:+ r).
Proof. reflexivity. Qed.

Lemma app_length p r :
  String.length (p +:+ r) = (String.length p + String.length r)%nat.
Proof. induction p as [|c p IH]; [done|]. rewrite app_cons. simpl. by rewrite IH. Qed.

Lemma app_empty_r s : s +:+ "" = s.
Proof. induction s as [|c s IH]; [done|]. by rewrite app_cons, IH. Qed.

(** [startswith] is "has a remainder". *)
Lemma startswith_iff s p :
  Py.startswith s p = true ↔ ∃ r, s = p +:+ r.
Proof.
  unfold Py.startswith. revert s. induction p as [|a p IH]; intros s.
  - destruct s; simpl; split; eauto.
  - destruct s as [|b s]; simpl.
    + split; [done|]. intros [r Hr]. by rewrite app_cons in Hr.
    + destruct (Ascii.ascii_dec a b) as [->|Hab].
      * rewrite IH. split; intros [r Hr]; exists r.
        -- by rewrite app_cons, Hr.
        -- rewrite app_cons in Hr. congruence.
      * split; [done|]. intros [r Hr]. rewrite app_cons in Hr. congruence.
Qed.

Lemma startswith_app p r : Py.startswith (p +:+ r) p = true.
Proof. apply startswith_iff. eauto. Qed.

Lemma slice_to_app p r : Py.slice_to (String.length p) (p +:+ r) = p.
Proof. induction p as [|c p IH]; [by destruct r|]. rewrite app_cons. simpl. by rewrite IH. Qed.

Lemma slice_from_app p r : Py.slice_from (String.length p) (p +:+ r) = r.
Proof. induction p as [|c p IH]; [by destruct r|]. by rewrite app_cons. Qed.

Lemma get_app_length p r :
  String.get (String.length p) (p +:+ r) = String.get 0 r.
Proof. induction p as [|c p IH]; [done|]. by rewrite app_cons. Qed.

Lemma getitem_app_length p r :
  Py.getitem (p +:+ r) (String.length p) = Py.getitem r 0.
Proof. unfold Py.getitem. by rewrite get_app_length. Qed.

(** *** The order of strings *)

Lemma lt_compare s r : Py.lt s r = true ↔ String.compare s r = Lt.
Proof. unfold Py.lt, String.ltb. by destruct (String.compare s r). Qed.

Lemma ascii_compare_refl c : Ascii.compare c c = Eq.
Proof. unfold Ascii.compare. apply N.compare_refl. Qed.

Lemma compare_refl s : String.compare s s = Eq.
Proof. induction s as [|c s IH]; [done|]. simpl. by rewrite ascii_compare_refl. Qed.

Lemma lt_irrefl s : Py.lt s s = false.
Proof. unfold Py.lt, String.ltb. by rewrite compare_refl. Qed.

Lemma lt_le_ne s r : Py.lt s r = true ↔ String.le s r ∧ s ≠ r.
Proof.
  rewrite lt_compare. unfold String.le, String.leb.
  destruct (String.compare s r) eqn:E.
  - apply String.compare_eq_iff in E. split; [done|]. by intros [_ []].
  - split; [|done]. intros _. split; [done|]. intros ->.
    by rewrite compare_refl in E.
  - split; [done|]. by intros [[] _].
Qed.

Lemma not_lt_le s r : Py.lt s r = false ↔ String.le r s.
Proof.
  unfold Py.lt, String.ltb, String.le, String.leb.
  rewrite (String.compare_antisym s r).
  destruct (String.compare r s); simpl; split; try done; by intros [].
Qed.

Lemma lt_le_trans s r g : Py.lt s r = true → String.le r g → Py.lt s g = true.
Proof.
  rewrite !lt_le_ne. intros [H1 H2] H3. split; [by etrans|].
  intros ->. apply H2. by apply (anti_symm String.le).
Qed.

Lemma le_lt_trans s r g : String.le s r → Py.lt r g = true → Py.lt s g = true.
Proof.
  rewrite !lt_le_ne. intros H1 [H2 H3]. split; [by etrans|].
  intros ->. apply H3. by apply (anti_symm String.le).
Qed.

(** A prefix is not above the whole string. *)
Lemma prefix_le p r : String.le p (p +:+ r).
Proof.
  unfold String.le, String.leb. induction p as [|c p IH].
  - rewrite app_empty_l. by destruct r.
  - rewrite app_cons. simpl.
    by rewrite ascii_compare_refl.
Qed.

Lemma lt_prefix_iff p r : Py.lt p (p +:+ r) = true ↔ r ≠ "".
Proof.
  rewrite lt_le_ne. split.
  - intros [_ Hne] ->. by rewrite app_empty_r in Hne.
  - intros Hr. split; [apply prefix_le|]. intros Heq. apply Hr.
    apply (f_equal String.length) in Heq. rewrite app_length in Heq.
    destruct r; [done|]. simpl in Heq. lia.
Qed.


End strings.

(** ** The name repair rule *)

Section add_space.
Import Greengenes.

Lemma add_space_no_prefix species genus :
  Py.startswith species genus = false → _add_space species genus = Ok species.
Proof. unfold _add_space. by intros ->. Qed.

(** On a species that starts with the genus, the rule looks at the first
    character of the remainder, and fails when there is none. *)
Lemma add_space_app genus rest :
  _add_space (genus +:+ rest) genus =
    match rest with
    | "" => Raise IndexError
    | String c _ =>
        if Py.is_space_char c then Ok (genus +:+ rest)
        else Ok (genus +:+ " " +:+ rest)
    end.
Proof.
  unfold _add_space. rewrite startswith_app, getitem_app_length.
  destruct rest as [|c rest]; [done|]. simpl.
  destruct (Py.is_space_char c); [done|]. simpl.
  by rewrite slice_to_app, slice_from_app.
Qed.

Lemma add_space_self genus : _add_space genus genus = Raise IndexError.
Proof. by rewrite <-(app_empty_r genus) at 1; rewrite add_space_app. Qed.

Lemma is_space_char_iff c : Py.is_space_char c = true ↔ c = " "%char.
Proof. unfold Py.is_space_char. apply Ascii.eqb_eq. Qed.

(** Apart from a species equal to the genus, the rule is the one of the
    specification. *)
Lemma add_space_spec species genus :
  species ≠ genus →
  _add_space species genus =
    Ok (if Py.startswith species genus
           && negb (bool_decide
                (String.get (String.length genus) species = Some " "%char))
        then genus +:+ " " +:+ Py.slice_from (String.length genus) species
        else species).
Proof.
  intros Hne. destruct (Py.startswith species genus) eqn:Hpre.
  - apply startswith_iff in Hpre as [r ->]. rewrite add_space_app.
    rewrite get_app_length, slice_from_app.
    destruct r as [|c r]; [by rewrite app_empty_r in Hne|].
    cbn [String.get andb]. destruct (Py.is_space_char c) eqn:Hc.
    + apply is_space_char_iff in Hc as ->. by rewrite bool_decide_eq_true_2.
    + rewrite bool_decide_eq_false_2; [done|]. intros [= Hsp].
      apply is_space_char_iff in Hsp. congruence.
  - by apply add_space_no_prefix.
Qed.

(** C2 (the code departs from the claim).  The three examples of the
    specification evaluate as stated, but a species equal to the genus is
    not returned unchanged: the rule reads the character after the prefix
    without checking that there is one, and raises [IndexError].  The
    parser, which makes the same test before it calls the rule, fails in
    the same way on a line whose species is its genus. *)
Theorem add_space_genus_alone :
  _add_space "Escherichiacoli" "Escherichia" = Ok "Escherichia coli" ∧
  _add_space "Escherichia coli" "Escherichia" = Ok "Escherichia coli" ∧
  _add_space "Salmonella" "Escherichia" = Ok "Salmonella" ∧
  _add_space "Escherichia" "Escherichia" = Raise IndexError ∧
  (∀ genus, _add_space genus genus = Raise IndexError) ∧
  parse_line ("1" +:+ String "009"%char "g__Escherichia;s__Escherichia") =
    Raise IndexError.
Proof. split_and!; [done..|apply add_space_self|by vm_compute]. Qed.

End add_space.

(** ** Sorted lists and the binary search *)

Section search.
Implicit Types (keys a : list string) (x k g : string).

Lemma sorted_strongly l : StronglySorted String.le (Py.sorted l).
Proof. apply Sorted_StronglySorted; [apply _|]. apply Sorted_merge_sort, _. Qed.

Lemma strongly_sorted_lookup keys i j x k :
  StronglySorted String.le keys → (i ≤ j)%nat →
  keys !! i = Some x → keys !! j = Some k → String.le x k.
Proof.
  intros Hs. revert i j x k.
  induction Hs as [|y keys Hs IH Hall]; intros i j x k Hij Hi Hj.
  - by rewrite lookup_nil in Hi.
  - destruct i as [|i], j as [|j]; simplify_eq/=; [done| |lia|].
    + rewrite Forall_forall in Hall. apply Hall.
      by eapply list_elem_of_lookup_2.
    + eapply (IH i j); [lia|done..].
Qed.

Lemma bisect_loop_spec fuel a x lo hi :
  StronglySorted String.le a →
  (lo ≤ hi ≤ length a)%nat → (hi - lo ≤ fuel)%nat →
  (∀ i k, (i < lo)%nat → a !! i = Some k → Py.lt k x = true) →
  (∀ i k, (hi ≤ i)%nat → a !! i = Some k → Py.lt k x = false) →
  let r := Py.bisect_loop fuel a x lo hi in
  (∀ i k, (i < r)%nat → a !! i = Some k → Py.lt k x = true) ∧
  (∀ i k, (r ≤ i)%nat → a !! i = Some k → Py.lt k x = false).
Proof.
  intros Hs. revert lo hi.
  induction fuel as [|fuel IH]; intros lo hi Hb Hf Hlo Hhi; cbn [Py.bisect_loop].
  { assert (lo = hi) as -> by lia. done. }
  case_decide as Hlt; [|assert (lo = hi) as -> by lia; done].
  set (mid := ((lo + hi) `div` 2)%nat).
  assert (lo ≤ mid < hi)%nat as Hmid.
  { subst mid. split.
    - apply Nat.div_le_lower_bound; lia.
    - apply Nat.Div0.div_lt_upper_bound; lia. }
  destruct (lookup_lt_is_Some_2 a mid) as [y Hy]; [lia|]. rewrite Hy.
  destruct (Py.lt y x) eqn:Hyx.
  - apply IH; [lia|lia| |done].
    intros i k Hi Hk. eapply le_lt_trans; [|exact Hyx].
    eapply (strongly_sorted_lookup a i mid); [done|lia|done..].
  - apply IH; [lia|lia|done|].
    intros i k Hi Hk. apply not_lt_le. etrans; [by apply not_lt_le|].
    by eapply (strongly_sorted_lookup a mid i).
Qed.

(** On a sorted list, [bisect_left] is the index of the first entry that
    is not below [x]. *)
Lemma bisect_left_spec a x i k :
  StronglySorted String.le a → a !! i = Some k →
  (i < Py.bisect_left a x)%nat ↔ Py.lt k x = true.
Proof.
  intros Hs Hk.
  destruct (bisect_loop_spec (length a) a x 0 (length a)) as [H1 H2];
    [done|lia|lia|intros; lia| |].
  { intros j k' Hj Hk'. apply lookup_lt_Some in Hk'. lia. }
  fold (Py.bisect_left a x) in H1, H2. split.
  - intros Hi. by eapply H1.
  - intros Hlt. destruct (decide (i < Py.bisect_left a x)%nat); [done|].
    rewrite (H2 i k) in Hlt; [done|lia|done].
Qed.

(** The first match among the entries that [takewhile] lets through. *)
Lemma find_takewhile_Some {A} (P Q : A → bool) (l : list A) (v : A) :
  List.find P (Py.takewhile Q l) = Some v ↔
  ∃ i, l !! i = Some v ∧ P v = true ∧
       (∀ j u, (j ≤ i)%nat → l !! j = Some u → Q u = true) ∧
       (∀ j u, (j < i)%nat → l !! j = Some u → P u = false).
Proof.
  induction l as [|x l IH]; simpl.
  { split; [done|]. by intros (i & Hi & _). }
  destruct (Q x) eqn:HQ; simpl.
  - destruct (P x) eqn:HP.
    + split.
      * intros [= ->]. exists 0%nat. split_and!; [done..| |intros; lia].
        intros [|j] u Hj Hk; simplify_eq/=; [done|lia].
      * intros ([|i] & Hi & Hv & HQs & HPs); simplify_eq/=; [done|].
        rewrite (HPs 0%nat x) in HP; [done|lia|done].
    + rewrite IH. split.
      * intros (i & Hi & Hv & HQs & HPs). exists (S i). split_and!; [done..| |].
        -- intros [|j] u Hj Hk; simplify_eq/=; [done|]. eapply (HQs j); [lia|done].
        -- intros [|j] u Hj Hk; simplify_eq/=; [done|]. eapply (HPs j); [lia|done].
      * intros ([|i] & Hi & Hv & HQs & HPs); simplify_eq/=; [congruence|].
        exists i. split_and!; [done..| |].
        -- intros j u Hj Hk. apply (HQs (S j)); [lia|done].
        -- intros j u Hj Hk. apply (HPs (S j)); [lia|done].
  - split; [done|]. intros (i & Hi & Hv & HQs & HPs).
    rewrite (HQs 0%nat x) in HQ; [done|lia|done].
Qed.


End search.

(** ** The search for a candidate genus *)

Section find_genus.
Import Greengenes.
Implicit Types (keys : list string) (g k : string).

Lemma find_genus_empty keys : find_genus keys "" = Raise IndexError.
Proof. reflexivity. Qed.

Lemma find_genus_cons keys c rest :
  find_genus keys (String c rest) =
    Ok (List.find (λ genus, Py.startswith (String c rest) genus)
          (Py.takewhile (λ k, Py.lt k (String c rest))
             (Py.islice keys (Py.bisect_left keys (String c ""))))).
Proof. reflexivity. Qed.

(** Whatever the list, an accepted entry is below the name and a prefix
    of it. *)
Lemma find_genus_accepts keys tax_name g :
  find_genus keys tax_name = Ok (Some g) →
  Py.lt g tax_name = true ∧ Py.startswith tax_name g = true.
Proof.
  destruct tax_name as [|c rest]; [done|]. rewrite find_genus_cons.
  intros [= (i & Hi & HP & HQ & _)%find_takewhile_Some]. split; [|done].
  by apply (HQ i).
Qed.

Lemma accepted_remainder tax_name g :
  Py.lt g tax_name = true → Py.startswith tax_name g = true →
  ∃ c r, tax_name = g +:+ String c r.
Proof.
  intros Hlt [r ->]%startswith_iff. apply lt_prefix_iff in Hlt.
  destruct r as [|c r]; [done|]. eauto.
Qed.

Lemma find_genus_Some keys c rest g :
  StronglySorted String.le keys →
  let tax_name := String c rest in
  let start := Py.bisect_left keys (String c "") in
  find_genus keys tax_name = Ok (Some g) ↔
  ∃ i, candidate keys start tax_name i g ∧
       ∀ j k, (j < i)%nat → ¬ candidate keys start tax_name j k.
Proof.
  intros Hs tax_name start. unfold tax_name at 1. rewrite find_genus_cons.
  fold tax_name start. unfold Py.islice. split.
  - intros [= (i & Hi & HP & HQ & HPs)%find_takewhile_Some].
    exists (start + i)%nat. split.
    + split_and!; [by rewrite <-lookup_drop|lia| |done]. by apply (HQ i); [lia|].
    + intros j k Hj (Hk & Hstart & Hlt & Hpre).
      assert (Py.startswith tax_name k = false) as Hf; [|congruence].
      apply (HPs (j - start)%nat); [lia|].
      rewrite lookup_drop. by replace (start + (j - start))%nat with j by lia.
  - intros (i & (Hi & Hstart & Hlt & Hpre) & Hfirst). f_equal.
    assert (∀ j u, (j ≤ i - start)%nat →
              drop start keys !! j = Some u → Py.lt u tax_name = true) as HQ.
    { intros j u Hj Hu. rewrite lookup_drop in Hu.
      eapply le_lt_trans; [|exact Hlt].
      eapply (strongly_sorted_lookup keys (start + j) i); [done|lia|done..]. }
    apply find_takewhile_Some. exists (i - start)%nat. split_and!; [|done..|].
    + rewrite lookup_drop. by replace (start + (i - start))%nat with i by lia.
    + intros j u Hj Hu.
      destruct (Py.startswith tax_name u) eqn:Hpre'; [|done].
      destruct (Hfirst (start + j)%nat u); [lia|].
      split_and!; [by rewrite <-lookup_drop|lia| |done].
      apply (HQ j); [lia|done].
Qed.


Lemma sorted_keys_strongly (all_genus : gmap string string) :
  StronglySorted String.le (sorted_keys all_genus).
Proof. apply sorted_strongly. Qed.

(** The staged updates come from the rows for which a genus was found. *)
Lemma stage_all_staged keys args rows args' :
  stage_all keys args rows = Ok args' →
  ∀ a, a ∈ args' →
    a ∈ args ∨
    ∃ tax_name g, (a.2, tax_name) ∈ rows ∧
      find_genus keys tax_name = Ok (Some g) ∧ Py.truthy g = true ∧
      _add_space tax_name g = Ok a.1.
Proof.
  revert args. induction rows as [|[tax_id tax_name] rows IH]; intros args; simpl.
  { intros [= <-] a Ha. by left. }
  destruct (find_genus keys tax_name) as [[g|]|e] eqn:Hfind; simpl; [| |done].
  - destruct (Py.truthy g) eqn:Hg; simpl.
    + destruct (_add_space tax_name g) as [new|e] eqn:Hadd; simpl; [|done].
      intros Hrest a Ha.
      destruct (IH _ Hrest a Ha) as [Hin|(n & g' & Hin & Hg')].
      * apply elem_of_app in Hin as [Hin|Hin]; [by left|].
        apply list_elem_of_singleton in Hin as ->. right.
        exists tax_name, g. split; [by left|done].
      * right. exists n, g'. split; [by right|done].
    + intros Hrest a Ha.
      destruct (IH _ Hrest a Ha) as [Hin|(n & g' & Hin & Hg')]; [by left|].
      right. exists n, g'. split; [by right|done].
  - intros Hrest a Ha.
    destruct (IH _ Hrest a Ha) as [Hin|(n & g' & Hin & Hg')]; [by left|].
    right. exists n, g'. split; [by right|done].
Qed.

(** An update leaves the names of the other nodes where they are. *)
Lemma executemany_other nms args i m :
  nms !! i = Some m →
  (∀ a, a ∈ args → a.2 ≠ Name.tax_id m) →
  executemany nms args !! i = Some m.
Proof.
  unfold executemany. revert nms. induction args as [|a args IH]; intros nms Hm Hargs.
  { done. }
  simpl. apply IH.
  - unfold update_name. rewrite list_lookup_fmap, Hm. simpl.
    rewrite bool_decide_eq_false_2; [done|]. intros Heq.
    by apply (Hargs a); [left|].
  - intros a' Ha'. apply Hargs. by right.
Qed.


(** C10.  An entry accepted by the search is below the species name and a
    prefix of it, hence shorter: the name has a character right after the
    prefix, the repair rule does not fail on it, and the update staged
    carries the name either unchanged or with one space put after the
    prefix. *)
Theorem cleaner_repair_in_range keys args tax_id tax_name g :
  find_genus keys tax_name = Ok (Some g) →
  Py.lt g tax_name = true ∧ Py.startswith tax_name g = true ∧
  (String.length g < String.length tax_name)%nat ∧
  ∃ c rest,
    tax_name = g +:+ String c rest ∧
    Py.getitem tax_name (String.length g) = Ok c ∧
    let new_tax_name :=
      if Py.is_space_char c then tax_name else g +:+ " " +:+ String c rest in
    _add_space tax_name g = Ok new_tax_name ∧
    stage keys args (tax_id, tax_name) =
      Ok (if Py.truthy g then args ++ [(new_tax_name, tax_id)] else args).
Proof.
  intros Hfind. destruct (find_genus_accepts _ _ _ Hfind) as [Hlt Hpre].
  destruct (accepted_remainder _ _ Hlt Hpre) as (c & rest & Hname).
  split_and!; [done..| |].
  { rewrite Hname, app_length. simpl. lia. }
  exists c, rest. split; [done|]. split.
  { by rewrite Hname, getitem_app_length. }
  assert (_add_space tax_name g =
    Ok (if Py.is_space_char c then tax_name else g +:+ " " +:+ String c rest))
    as Hadd.
  { rewrite Hname at 1. rewrite add_space_app. rewrite <-Hname.
    by destruct (Py.is_space_char c). }
  simpl. split; [done|]. unfold stage. rewrite Hfind. simpl.
  destruct (Py.truthy g); [|done]. by rewrite Hadd.
Qed.

Lemma cleaner_repair_in_range_witness :
  find_genus ["Escherichia"] "Escherichiacoli" = Ok (Some "Escherichia") ∧
  Py.lt "Escherichia" "Escherichiacoli" = true ∧
  Py.startswith "Escherichiacoli" "Escherichia" = true ∧
  (String.length "Escherichia" < String.length "Escherichiacoli")%nat.
Proof.
  split; [reflexivity|].
  pose proof (cleaner_repair_in_range ["Escherichia"] [] "GG00000007"
                "Escherichiacoli" "Escherichia" eq_refl) as H.
  split; [apply H|]. split; apply H.
Defined.

End find_genus.

(** ** The tax-id remapper *)

Section remapper.
Import UpdateTaxids.
Implicit Types (cfg : config) (out : output) (row : gmap string string)
  (rows pre post : list (gmap string string)).



Lemma step_unknown cfg out row :
  unknown cfg row →
  step cfg out row =
    let unk :=
      if unknowns cfg then unknown_rows out ++ [row] else unknown_rows out in
    if bool_decide (unknown_action cfg = "ignore")
    then mkoutput (written out ++ [row]) unk None
    else if bool_decide (unknown_action cfg = "drop")
    then mkoutput (written out) unk None
    else if bool_decide (unknown_action cfg = "error")
    then mkoutput (written out) unk
           (Some (exit_message (row !! taxid_column cfg)))
    else mkoutput (written out ++ [row]) unk None.
Proof. intros [Hv Hm]. unfold step. by rewrite Hv, Hm. Qed.

Lemma loop_app cfg out pre rows :
  exited out = None →
  loop cfg out (pre ++ rows) =
    match exited (loop cfg out pre) with
    | Some _ => loop cfg out pre
    | None => loop cfg (loop cfg out pre) rows
    end.
Proof.
  revert out. induction pre as [|row pre IH]; intros out Hout; simpl.
  { by rewrite Hout. }
  destruct (exited (step cfg out row)) eqn:E; [by rewrite E|]. by apply IH.
Qed.



(** Only the disposition [error] ends a run early. *)
Lemma step_not_exited cfg out row :
  unknown_action cfg ≠ "error" → exited (step cfg out row) = None.
Proof.
  intros Hne. unfold step. rewrite (bool_decide_eq_false_2 _ Hne).
  by repeat case_match.
Qed.



Lemma action_snoc cfg pre rows :
  exited (action cfg pre) = None →
  action cfg (pre ++ rows) = loop cfg (action cfg pre) rows.
Proof. intros Hpre. unfold action in *. by rewrite loop_app, Hpre. Qed.





End remapper.

(** ** The lineage parser *)

Section parser.
Import Greengenes.

Lemma classifications_kept split cls :
  classifications split = Ok cls →
  Forall2 kept (filter (λ item, Is_true (named item)) split) cls.
Proof.
  revert cls. induction split as [|item split IH]; intros cls; simpl.
  { intros [= <-]. constructor. }
  destruct item as [|cls_key [|name [|x item]]]; try done.
  destruct (Py.truthy name) eqn:Hname; simpl.
  - unfold rank_of. destruct (_rank_map !! cls_key) as [r|] eqn:Hr; [|done].
    simpl. destruct (classifications split) as [tl|]; [|done]. simpl.
    intros [= <-]. rewrite filter_cons_True by (by unfold named; rewrite Hname).
    constructor; [|by apply IH]. by exists cls_key.
  - intros Hcls. rewrite filter_cons_False by (by unfold named; rewrite Hname; intros []).
    by apply IH.
Qed.

Lemma getitem_neg_snoc {A} (l : list A) (x : A) :
  Py.getitem_neg (l ++ [x]) 1 = Ok x.
Proof. unfold Py.getitem_neg. by rewrite reverse_snoc. Qed.

Lemma getitem_neg_snoc2 {A} (l : list A) (x y : A) :
  Py.getitem_neg (l ++ [x; y]) 2 = Ok x.
Proof.
  unfold Py.getitem_neg.
  replace (l ++ [x; y]) with ((l ++ [x]) ++ [y]) by by rewrite <-app_assoc.
  by rewrite !reverse_snoc.
Qed.

Lemma set_last_name_snoc (l : list (string * string)) r n v :
  set_last_name (l ++ [(r, n)]) v = l ++ [(r, v)].
Proof.
  unfold set_last_name. rewrite reverse_snoc.
  by rewrite reverse_cons, reverse_involutive.
Qed.

(** The special handling changes nothing, or puts a space into a species
    that follows its genus. *)
Lemma fix_species_spec res res' :
  fix_species res = Ok res' →
  res' = res ∨
  ∃ before genus c rest,
    res = before ++ [("genus", genus); ("species", genus +:+ String c rest)] ∧
    c ≠ " "%char ∧
    res' = before ++
      [("genus", genus); ("species", genus +:+ " " +:+ String c rest)].
Proof.
  destruct res as [|e0 res0] using rev_ind; [done|]. clear IHres0.
  destruct e0 as [r1 species]. unfold fix_species.
  rewrite getitem_neg_snoc. simpl.
  case_bool_decide as Hr1; [|by intros [= <-]; left]. subst r1.
  destruct res0 as [|e1 before] using rev_ind; [done|]. clear IHbefore.
  destruct e1 as [r2 genus]. rewrite <-(assoc_L (++)). simpl.
  rewrite getitem_neg_snoc2. simpl.
  case_bool_decide as Hr2; [|by intros [= <-]; left]. subst r2.
  destruct (Py.startswith species genus) eqn:Hpre; [|by intros [= <-]; left].
  apply startswith_iff in Hpre as [r ->].
  rewrite getitem_app_length, add_space_app.
  destruct r as [|c rest]; [done|]. simpl.
  destruct (Py.is_space_char c) eqn:Hc; simpl; [by intros [= <-]; left|].
  intros [= <-]. right. exists before, genus, c, rest. split_and!; [done| |].
  - intros ->. by vm_compute in Hc.
  - replace (before ++ [("genus", genus); ("species", genus +:+ String c rest)])
      with ((before ++ [("genus", genus)]) ++
            [("species", genus +:+ String c rest)])
      by by rewrite <-app_assoc.
    by rewrite set_last_name_snoc, <-app_assoc.
Qed.

(** What [_parse_classes] returns when it returns: the root entry, an entry
    for each item with a name, in order, the last of them possibly repaired,
    and the entry of the OTU. *)
Lemma parse_classes_shape classes otu_id lineage :
  _parse_classes classes otu_id = Ok lineage →
  let split := (λ i, Py.split i "__") <$> Py.split classes ";" in
  ∃ cls middle,
    classifications split = Ok cls ∧
    Forall2 kept (filter (λ item, Is_true (named item)) split) cls ∧
    lineage = (root_name, root_name) :: middle ++ [("otu", Py.str otu_id)] ∧
    (middle = cls ∨
     ∃ before genus c rest,
       cls = before ++
         [("genus", genus); ("species", genus +:+ String c rest)] ∧
       c ≠ " "%char ∧
       middle = before ++
         [("genus", genus); ("species", genus +:+ " " +:+ String c rest)]).
Proof.
  intros Hparse split. unfold _parse_classes in Hparse. fold split in Hparse.
  destruct (classifications split) as [cls|] eqn:Hcls; [|done].
  simpl in Hparse.
  destruct (fix_species ((root_name, root_name) :: cls)) as [res|] eqn:Hfix;
    [|done].
  simpl in Hparse. injection Hparse as <-.
  apply fix_species_spec in Hfix as [->|(before & genus & c & rest & H1 & Hc & ->)].
  - exists cls, cls. split_and!; [done|by apply classifications_kept|done|by left].
  - destruct before as [|e before]; [done|]. injection H1 as <- ->.
    eexists _, _. split_and!; [done|by apply classifications_kept|done|].
    right. by exists before, genus, c, rest.
Qed.

(** C6.  The line of the specification, with or without its line end, is
    parsed into the root entry, the three classifications that have a name
    and the entry of the OTU; the species is left as it is, there being no
    genus before it.  In general a parsed lineage is the root entry, one
    entry per item with a non-empty name (the items without a name are
    skipped), and the entry [("otu", str(otu_id))]; only a species right
    after its genus can differ from its item, by one space. *)
Theorem parse_line_without_genus :
  let line :=
    "42" +:+ String "009"%char "k__Bacteria;p__Proteobacteria;s__coli" in
  let lineage :=
    [("root", "root"); ("kingdom", "Bacteria"); ("phylum", "Proteobacteria");
     ("species", "coli"); ("otu", "42")] in
  parse_line line = Ok lineage ∧
  parse_line (line +:+ String "010"%char "") = Ok lineage ∧
  _parse_gg [line] = [Ok lineage] ∧
  parse_line
    ("42" +:+ String "009"%char "k__Bacteria;p__Proteobacteria;g__;s__coli") =
    Ok lineage ∧
  fix_species
    [("root", "root"); ("kingdom", "Bacteria"); ("phylum", "Proteobacteria");
     ("species", "coli")] =
    Ok [("root", "root"); ("kingdom", "Bacteria");
        ("phylum", "Proteobacteria"); ("species", "coli")] ∧
  ∀ classes otu_id parsed,
    _parse_classes classes otu_id = Ok parsed →
    let split := (λ i, Py.split i "__") <$> Py.split classes ";" in
    ∃ cls middle,
      classifications split = Ok cls ∧
      Forall2 kept (filter (λ item, Is_true (named item)) split) cls ∧
      parsed = (root_name, root_name) :: middle ++ [("otu", Py.str otu_id)] ∧
      (middle = cls ∨
       ∃ before genus c rest,
         cls = before ++
           [("genus", genus); ("species", genus +:+ String c rest)] ∧
         c ≠ " "%char ∧
         middle = before ++
           [("genus", genus); ("species", genus +:+ " " +:+ String c rest)]).
Proof.
  intros line lineage.
  split_and!; [by vm_compute..|]. apply parse_classes_shape.
Qed.

End parser.

(** ** Synthesized identifiers *)

Section identifiers.
Import Greengenes.




End identifiers.

(** ** The lineage loader *)

Section loader.
Import Greengenes.
Implicit Types (st : loader) (c : db) (nms : list Name.t)
  (classes : list (string * string)) (parent : option string).

(** *** The lookup by name *)

Lemma select_tax_id_Some nms name tax_id :
  select_tax_id nms name = Some tax_id →
  ∃ i m, nms !! i = Some m ∧ Name.tax_name m = name ∧ Name.tax_id m = tax_id.
Proof.
  unfold select_tax_id. induction nms as [|m nms IH]; simpl; [done|].
  case_bool_decide as Hm; simpl.
  - intros [= <-]. by exists 0%nat, m.
  - intros (i & m' & ?)%IH. by exists (S i), m'.
Qed.

Lemma select_tax_id_None nms name :
  select_tax_id nms name = None ↔ name ∉ Name.tax_name <$> nms.
Proof.
  unfold select_tax_id. induction nms as [|m nms IH]; simpl.
  { split; [|done]. intros _. apply not_elem_of_nil. }
  rewrite not_elem_of_cons. case_bool_decide as Hm; simpl.
  - split; [done|]. by intros [? _].
  - rewrite IH. split; [by split|]. by intros [_ ?].
Qed.


Lemma select_tax_id_snoc nms name tax_id :
  select_tax_id nms name = None →
  select_tax_id (nms ++ [Name.mk tax_id name 1]) name = Some tax_id.
Proof.
  unfold select_tax_id. induction nms as [|m nms IH]; simpl.
  { by rewrite bool_decide_eq_true_2. }
  by case_bool_decide.
Qed.

(** *** One call of [_get_or_insert] *)

Lemma get_or_insert_Ok name rank parent source_id st st' tax_id :
  _get_or_insert name rank parent source_id st = Ok (st', tax_id) →
  (select_tax_id (names (con st)) name = Some tax_id ∧ st' = st) ∨
  (select_tax_id (names (con st)) name = None ∧
   tax_id = format_tax_id (count st) ∧
   st' =
     mkloader
       (mkdb (nodes (con st) ++
                [Node.mk tax_id (default tax_id parent) rank None])
             (names (con st) ++ [Name.mk tax_id name 1])
             (source (con st)))
       (S (count st))).
Proof.
  unfold _get_or_insert.
  destruct (select_tax_id (names (con st)) name) as [tax_id'|] eqn:E.
  - intros [= <- <-]. by left.
  - destruct source_id as [row|]; [done|]. simpl. intros [= <- <-]. by right.
Qed.

(** With a row for greengenes in [source], no node can be inserted. *)
Lemma get_or_insert_unbound name rank parent row st :
  select_tax_id (names (con st)) name = None →
  _get_or_insert name rank parent (Some row) st = Raise InterfaceError.
Proof. unfold _get_or_insert. by intros ->. Qed.

Lemma get_or_insert_inv name rank parent source_id st st' tax_id :
  _get_or_insert name rank parent source_id st = Ok (st', tax_id) →
  loader_inv st → loader_inv st'.
Proof.
  intros [[_ ->]|(Hnone & -> & ->)]%get_or_insert_Ok [Hids Hnames Hnodup];
    [done|].
  split; cbn [fst con count nodes names].
  - by rewrite fmap_app, Hids, seq_S, fmap_app.
  - by rewrite !fmap_app, Hnames.
  - rewrite fmap_app. apply NoDup_app. split_and!; [done| |apply NoDup_singleton].
    intros x Hx ->%list_elem_of_singleton. by apply select_tax_id_None in Hnone.
Qed.

Lemma get_or_insert_extends name rank parent source_id st st' tax_id :
  _get_or_insert name rank parent source_id st = Ok (st', tax_id) →
  extends (con st) (con st').
Proof.
  intros [[_ ->]|(Hnone & -> & ->)]%get_or_insert_Ok; simpl.
  - exists [], []. by rewrite !app_nil_r.
  - by eexists _, _.
Qed.

Global Instance extends_refl : Reflexive extends.
Proof. intros c. exists [], []. by rewrite !app_nil_r. Qed.

Global Instance extends_trans : Transitive extends.
Proof.
  intros c1 c2 c3 (ns & ms & H1 & H2 & H3) (ns' & ms' & H1' & H2' & H3').
  exists (ns ++ ns'), (ms ++ ms').
  by rewrite H1', H2', H3', H1, H2, H3, !app_assoc.
Qed.

(** *** A walk and the loop *)

Lemma walk_cons source_id rank name classes parent st st' :
  walk source_id ((rank, name) :: classes) parent st = Ok st' →
  ∃ st1 tax_id,
    _get_or_insert name rank parent source_id st = Ok (st1, tax_id) ∧
    walk source_id classes (Some tax_id) st1 = Ok st'.
Proof.
  simpl.
  destruct (_get_or_insert name rank parent source_id st) as [[st1 tax_id]|e];
    [|done].
  simpl. by exists st1, tax_id.
Qed.

Lemma walk_inv source_id classes parent st st' :
  walk source_id classes parent st = Ok st' → loader_inv st → loader_inv st'.
Proof.
  revert parent st. induction classes as [|[rank name] classes IH];
    intros parent st.
  { by intros [= <-]. }
  intros (st1 & tax_id & Hins & Hwalk)%walk_cons Hinv.
  eapply IH; [done|]. by eapply get_or_insert_inv.
Qed.

Lemma walk_extends source_id classes parent st st' :
  walk source_id classes parent st = Ok st' → extends (con st) (con st').
Proof.
  revert parent st. induction classes as [|[rank name] classes IH];
    intros parent st.
  { by intros [= <-]. }
  intros (st1 & tax_id & Hins & Hwalk)%walk_cons.
  etrans; [by eapply get_or_insert_extends|by eapply IH].
Qed.

Lemma load_loop_cons source_id classes rows st st' :
  load_loop source_id (Ok classes :: rows) st = Ok st' →
  ∃ st1, walk source_id classes None st = Ok st1 ∧
         load_loop source_id rows st1 = Ok st'.
Proof.
  simpl. destruct (walk source_id classes None st) as [st1|e]; [|done].
  simpl. by exists st1.
Qed.

Lemma load_loop_inv source_id rows st st' :
  load_loop source_id rows st = Ok st' → loader_inv st → loader_inv st'.
Proof.
  revert st. induction rows as [|[classes|e] rows IH]; intros st.
  - by intros [= <-].
  - intros (st1 & Hwalk & Hloop)%load_loop_cons Hinv.
    eapply IH; [done|]. by eapply walk_inv.
  - done.
Qed.

Lemma load_loop_extends source_id rows st st' :
  load_loop source_id rows st = Ok st' → extends (con st) (con st').
Proof.
  revert st. induction rows as [|[classes|e] rows IH]; intros st.
  - by intros [= <-].
  - intros (st1 & Hwalk & Hloop)%load_loop_cons.
    etrans; [by eapply walk_extends|by eapply IH].
  - done.
Qed.

Lemma loader_inv_empty src : loader_inv (mkloader (mkdb [] [] src) 0).
Proof. split; simpl; [done..|apply NoDup_nil_2]. Qed.

(** *** What a load leaves in the store *)

Lemma load_rows_guarded rows c :
  has_row (nodes c) || has_row (names c) = true →
  _load_rows rows c = mkrun c ["nodes table has data. not updating."] None.
Proof. unfold _load_rows. by intros ->. Qed.

Lemma load_rows_empty rows src :
  let c := mkdb [] [] src in
  ∃ st, loader_inv st ∧ extends c (con st) ∧
        store (_load_rows rows c) = con st.
Proof.
  intros c. unfold _load_rows. simpl.
  destruct (load_loop (_get_source_id c) rows (mkloader c 0)) as [st|e] eqn:E.
  - exists st. split_and!; [|by apply load_loop_extends in E|done].
    eapply load_loop_inv; [done|]. apply loader_inv_empty.
  - exists (mkloader c 0). split_and!; [apply loader_inv_empty|done..].
Qed.

Lemma loader_inv_length st :
  loader_inv st → length (nodes (con st)) = count st.
Proof.
  intros [Hids _ _]. apply (f_equal length) in Hids.
  by rewrite !length_fmap, length_seq in Hids.
Qed.



(** C3 (the code departs from the claim).  In a load on an empty store the
    nodes carry, in the order of their insertion, the identifiers of the
    counter values 0, 1, 2, ...: the counter is [itertools.count()], which
    starts at 0, so that the first node is GG00000000 and not GG00000001,
    and the k-th node has the number k - 1. *)
Theorem synthesized_ids_from_zero rows src :
  let c := store (_load_rows rows (mkdb [] [] src)) in
  Node.tax_id <$> nodes c = format_tax_id <$> seq 0 (length (nodes c)) ∧
  format_tax_id 0 = "GG00000000" ∧
  format_tax_id 1 = "GG00000001" ∧
  Node.tax_id <$>
    nodes (store (_load_rows [Ok [("root", "root")]] (mkdb [] [] []))) =
    ["GG00000000"].
Proof.
  intros c. split_and!; [|done..].
  destruct (load_rows_empty rows src) as (st & Hinv & _ & Hst).
  unfold c. rewrite Hst, (loader_inv_length _ Hinv). apply Hinv.
Qed.

(** *** The links of the tree *)







Lemma parse_line_rooted line classes :
  parse_line line = Ok classes → rooted classes.
Proof.
  unfold parse_line.
  destruct (Py.split (Py.rstrip line) _) as [|otu_id [|cls [|x l]]]; try done.
  destruct (Py.int otu_id) as [n|]; [|done]. simpl.
  intros (cl & middle & _ & _ & -> & _)%parse_classes_shape. by eexists.
Qed.



End loader.

(** ** The candidates of the cleaning pass *)

Section candidates.
Import Greengenes.

(** The comparison of the WHERE clause holds for every pair of names: its
    right-hand side is a sum, hence a number, and its left-hand side is
    TEXT. *)
Lemma substr_ne_sum sname gname :
  Sqlite.text_ne
    (Sqlite.substr sname 1 (Sqlite.length gname + 1))
    (Sqlite.add_text gname " ") = true.
Proof. reflexivity. Qed.

Lemma select_candidates_iff c tax_id tax_name :
  (tax_id, tax_name) ∈ select_candidates c ↔
  ∃ snode gnode sname gname,
    snode ∈ nodes c ∧ gnode ∈ nodes c ∧ sname ∈ names c ∧ gname ∈ names c ∧
    Node.parent_id snode = Node.tax_id gnode ∧
    Name.tax_id sname = Node.tax_id snode ∧
    Name.tax_id gname = Node.tax_id gnode ∧
    Node.rank snode = "species" ∧ Node.rank gnode = "genus" ∧
    tax_id = Node.tax_id snode ∧ tax_name = Name.tax_name sname.
Proof.
  unfold select_candidates. rewrite elem_of_remove_dups. split.
  - intros (snode & (gnode & (sname & (gname & Hin & Hgname)%list_elem_of_bind
        & Hsname)%list_elem_of_bind & Hgnode)%list_elem_of_bind & Hsnode)%list_elem_of_bind.
    unfold where_clause in Hin. rewrite substr_ne_sum, andb_true_r in Hin.
    repeat case_bool_decide; simpl in Hin; try by apply elem_of_nil in Hin.
    apply list_elem_of_singleton in Hin as [= -> ->].
    by exists snode, gnode, sname, gname.
  - intros (snode & gnode & sname & gname & Hsnode & Hgnode & Hsname & Hgname
            & Hparent & Hs & Hg & Hrs & Hrg & -> & ->).
    apply list_elem_of_bind. exists snode. split; [|done].
    apply list_elem_of_bind. exists gnode. split; [|done].
    apply list_elem_of_bind. exists sname. split; [|done].
    apply list_elem_of_bind. exists gname. split; [|done].
    unfold where_clause. rewrite substr_ne_sum.
    rewrite !bool_decide_eq_true_2 by done. by apply list_elem_of_singleton.
Qed.

(** C8 (the code departs from the claim).  The query is meant to leave out
    a species whose name starts with the name of its genus and a space, but
    its comparison is written with [+], which in SQLite adds numbers: the
    right-hand side is a number, never equal to the text on the left.  The
    query therefore selects every species under a genus, such as
    "Escherichia coli" under "Escherichia". *)
Theorem candidates_include_repaired_names :
  let c :=
    mkdb [Node.mk "GG00000005" "GG00000001" "genus" None;
          Node.mk "GG00000006" "GG00000005" "species" None]
         [Name.mk "GG00000005" "Escherichia" 1;
          Name.mk "GG00000006" "Escherichia coli" 1] [] in
  Sqlite.substr "Escherichia coli" 1 (Sqlite.length "Escherichia" + 1) =
    "Escherichia " ∧
  select_candidates c = [("GG00000006", "Escherichia coli")] ∧
  ∀ c tax_id tax_name,
    (tax_id, tax_name) ∈ select_candidates c ↔
    ∃ snode gnode sname gname,
      snode ∈ nodes c ∧ gnode ∈ nodes c ∧
      sname ∈ names c ∧ gname ∈ names c ∧
      Node.parent_id snode = Node.tax_id gnode ∧
      Name.tax_id sname = Node.tax_id snode ∧
      Name.tax_id gname = Node.tax_id gnode ∧
      Node.rank snode = "species" ∧ Node.rank gnode = "genus" ∧
      tax_id = Node.tax_id snode ∧ tax_name = Name.tax_name sname.
Proof.
  intros c. split_and!; [by vm_compute..|]. apply select_candidates_iff.
Qed.

End candidates.

(** ** The cleaning pass run again *)

Section cleaner_again.
Import Greengenes.
Implicit Types (c : db) (nms : list Name.t) (args : list (string * string))
  (keys : list string).

(** *** Updates *)

Lemma update_name_tax_ids nms a :
  Name.tax_id <$> update_name nms a = Name.tax_id <$> nms.
Proof.
  unfold update_name. rewrite <-list_fmap_compose. apply list_fmap_ext.
  intros i m _. simpl. by case_bool_decide.
Qed.

Lemma executemany_tax_ids nms args :
  Name.tax_id <$> executemany nms args = Name.tax_id <$> nms.
Proof.
  unfold executemany. revert nms. induction args as [|a args IH]; intros nms; [done|].
  simpl. by rewrite IH, update_name_tax_ids.
Qed.

(** The name of a node after the updates, when all the updates of the node
    carry the same name. *)
Lemma executemany_target nms args i m v :
  nms !! i = Some m →
  (∃ a, a ∈ args ∧ a.2 = Name.tax_id m) →
  (∀ a, a ∈ args → a.2 = Name.tax_id m → a.1 = v) →
  executemany nms args !! i =
    Some (Name.mk (Name.tax_id m) v (Name.is_primary m)).
Proof.
  unfold executemany. revert nms m.
  induction args as [|a args IH]; intros nms m Hm [a0 [Hin Ha0]] Hsame.
  { by apply elem_of_nil in Hin. }
  simpl.
  assert (update_name nms a !! i =
            Some (if bool_decide (Name.tax_id m = a.2)
                  then Name.mk (Name.tax_id m) a.1 (Name.is_primary m)
                  else m)) as Hstep.
  { unfold update_name. by rewrite list_lookup_fmap, Hm. }
  destruct (decide (Exists (λ a', a'.2 = Name.tax_id m) args))
    as [Hlater%Exists_exists|Hnone]; [|rewrite Exists_exists in Hnone].
  - case_bool_decide as Ha.
    + rewrite (IH _ _ Hstep); [done|done|].
      intros a' Ha' Heq. apply Hsame; [by right|done].
    + apply (IH _ _ Hstep); [done|].
      intros a' Ha' Heq. apply Hsame; [by right|done].
  - apply elem_of_cons in Hin as [->|Hin]; [|destruct Hnone; eauto].
    rewrite bool_decide_eq_true_2 in Hstep by done.
    rewrite (Hsame a) in Hstep; [|by left|done].
    fold (executemany (update_name nms a) args).
    apply executemany_other; [done|].
    intros a' Ha' Heq. simpl in Heq. destruct Hnone. eauto.
Qed.


(** *** Staging *)

Lemma stage_all_keeps keys args rows args' a :
  stage_all keys args rows = Ok args' → a ∈ args → a ∈ args'.
Proof.
  revert args. induction rows as [|row rows IH]; intros args; simpl.
  { by intros [= <-]. }
  destruct (stage keys args row) as [args1|e] eqn:Hstage; simpl; [|done].
  intros Hrest Ha. apply (IH _ Hrest).
  unfold stage in Hstage. destruct row as [tax_id tax_name].
  destruct (find_genus keys tax_name) as [[g|]|e]; simpl in Hstage; [| |done].
  - destruct (Py.truthy g); simpl in Hstage; [|by injection Hstage as <-].
    destruct (_add_space tax_name g); simpl in Hstage; [|done].
    injection Hstage as <-. apply elem_of_app. by left.
  - by injection Hstage as <-.
Qed.

Lemma stage_all_complete keys args rows args' tax_id tax_name g v :
  stage_all keys args rows = Ok args' →
  (tax_id, tax_name) ∈ rows →
  find_genus keys tax_name = Ok (Some g) → Py.truthy g = true →
  _add_space tax_name g = Ok v →
  (v, tax_id) ∈ args'.
Proof.
  intros Hstage Hin Hfind Hg Hadd. revert args Hstage.
  induction rows as [|row rows IH]; intros args; simpl.
  { by apply elem_of_nil in Hin. }
  destruct (stage keys args row) as [args1|e] eqn:Hrow; simpl; [|done].
  intros Hrest. apply elem_of_cons in Hin as [<-|Hin]; [|by eapply IH].
  apply (stage_all_keeps _ _ _ _ _ Hrest).
  unfold stage in Hrow. rewrite Hfind in Hrow. simpl in Hrow.
  rewrite Hg, Hadd in Hrow. simpl in Hrow. injection Hrow as <-.
  apply elem_of_app. right. by apply list_elem_of_singleton.
Qed.

(** *** The search on a repaired name *)


(** *** A store in which every node has one row and one name *)

Lemma NoDup_fmap_eq {A B} (f : A → B) (l : list A) x y :
  NoDup (f <$> l) → x ∈ l → y ∈ l → f x = f y → x = y.
Proof.
  intros Hnd [i Hi]%list_elem_of_lookup [j Hj]%list_elem_of_lookup Heq.
  assert (i = j) as ->; [|congruence].
  eapply (NoDup_lookup (f <$> l)); [done|..].
  - by rewrite list_lookup_fmap, Hi.
  - by rewrite list_lookup_fmap, Hj; simpl; rewrite Heq.
Qed.






Lemma clean_species_unfold c :
  _clean_species c =
    match stage_all (sorted_keys (dict (select_genus c))) []
            (select_candidates c) with
    | Ok args =>
        mkrun (mkdb (nodes c) (executemany (names c) args) (source c)) [] None
    | Raise e => mkrun c [] (Some e)
    end.
Proof. reflexivity. Qed.

(** The repair of a name by the genus that the search found for it. *)
Lemma add_space_accepted keys tax_name g :
  find_genus keys tax_name = Ok (Some g) →
  ∃ ch rest,
    tax_name = g +:+ String ch rest ∧
    _add_space tax_name g =
      Ok (if Py.is_space_char ch then tax_name
          else g +:+ " " +:+ String ch rest).
Proof.
  intros [Hlt Hpre]%find_genus_accepts.
  destruct (accepted_remainder _ _ Hlt Hpre) as (ch & rest & ->).
  exists ch, rest. split; [done|]. rewrite add_space_app.
  by destruct (Py.is_space_char ch).
Qed.






End cleaner_again.

(** ** Whole runs of the remapper *)

Section remapper_runs.
Import UpdateTaxids.
Implicit Types (cfg : config) (out : output) (row : gmap string string)
  (rows pre post : list (gmap string string)).

Lemma remap_unknown cfg row : unknown cfg row → remap cfg row = row.
Proof. intros [Hv Hm]. unfold remap. by rewrite Hv, Hm. Qed.

Lemma step_known cfg out row :
  ¬ unknown cfg row →
  step cfg out row =
    mkoutput (written out ++ [remap cfg row]) (unknown_rows out) None.
Proof.
  intros Hknown. unfold step, remap. unfold unknown in Hknown.
  destruct (is_valid cfg (row !! taxid_column cfg)); [done|].
  destruct (merged cfg (row !! taxid_column cfg)); [done|].
  by destruct Hknown.
Qed.

(** A run under a disposition that does not end it. *)
Lemma loop_other cfg out rows :
  unknown_action cfg ≠ "error" → exited out = None →
  loop cfg out rows =
    mkoutput
      (written out ++
         (remap cfg <$>
            (if bool_decide (unknown_action cfg = "drop")
             then filter (λ row, ¬ unknown cfg row) rows else rows)))
      (unknown_rows out ++
         (if unknowns cfg then filter (unknown cfg) rows else []))
      None.
Proof.
  intros Hne. revert out. induction rows as [|row rows IH]; intros out Hout.
  { destruct out as [w u e]. simpl in *. subst e.
    destruct (unknowns cfg), (bool_decide _); simpl; by rewrite !app_nil_r. }
  simpl. rewrite step_not_exited by done.
  rewrite IH by by apply step_not_exited.
  destruct (decide (unknown cfg row)) as [Hunk|Hknown].
  - rewrite (filter_cons_True (unknown cfg)) by done.
    rewrite (filter_cons_False (λ row, ¬ unknown cfg row)) by tauto.
    rewrite (step_unknown _ _ _ Hunk). cbv zeta.
    rewrite (bool_decide_eq_false_2 (unknown_action cfg = "error")) by done.
    destruct (decide (unknown_action cfg = "drop")) as [Hd|Hd].
    + rewrite !(bool_decide_eq_true_2 _ Hd).
      rewrite (bool_decide_eq_false_2 (unknown_action cfg = "ignore"))
        by by rewrite Hd.
      cbn [written unknown_rows].
      destruct (unknowns cfg); by rewrite <-?app_assoc.
    + rewrite !(bool_decide_eq_false_2 _ Hd).
      rewrite fmap_cons, (remap_unknown _ _ Hunk).
      destruct (bool_decide (unknown_action cfg = "ignore"));
        cbn [written unknown_rows];
        destruct (unknowns cfg); by rewrite <-?app_assoc.
  - rewrite (filter_cons_False (unknown cfg)) by done.
    rewrite (filter_cons_True (λ row, ¬ unknown cfg row)) by done.
    rewrite (step_known _ _ _ Hknown). cbn [written unknown_rows].
    case_bool_decide; by rewrite fmap_cons, <-app_assoc.
Qed.

(** A run under [error] over rows that are all known. *)
Lemma loop_known cfg out rows :
  Forall (λ row, ¬ unknown cfg row) rows → exited out = None →
  loop cfg out rows =
    mkoutput (written out ++ (remap cfg <$> rows)) (unknown_rows out) None.
Proof.
  intros Hrows. revert out. induction Hrows as [|row rows Hrow _ IH]; intros out Hout.
  { destruct out as [w u e]. simpl in *. subst e. by rewrite app_nil_r. }
  simpl. rewrite (step_known _ _ _ Hrow). cbn [exited].
  rewrite IH by done. cbn [written unknown_rows].
  by rewrite <-app_assoc.
Qed.


(** The id of a row that the loop has rewritten. *)
Lemma remap_known_valid cfg row :
  targets_valid cfg → ¬ unknown cfg row →
  is_valid cfg (remap cfg row !! taxid_column cfg) = true.
Proof.
  intros Htargets Hknown. unfold remap. unfold unknown in Hknown.
  destruct (is_valid cfg (row !! taxid_column cfg)) eqn:Hv; [done|].
  destruct (merged cfg (row !! taxid_column cfg)) as [new|] eqn:Hm;
    [|by destruct Hknown].
  rewrite lookup_insert_eq. simpl. apply bool_decide_eq_true_2.
  unfold merged in Hm. destruct (row !! taxid_column cfg) as [t|]; [|done].
  by apply (Htargets t).
Qed.




(** The rows up to the first unknown one. *)
Lemma first_unknown cfg rows :
  Forall (λ row, ¬ unknown cfg row) rows ∨
  ∃ pre row post, rows = pre ++ row :: post ∧
    Forall (λ row, ¬ unknown cfg row) pre ∧ unknown cfg row.
Proof.
  induction rows as [|r rows IH]; [by left|].
  destruct (decide (unknown cfg r)) as [Hunk|Hknown].
  { right. by exists [], r, rows. }
  destruct IH as [Hall|(pre & row & post & -> & Hpre & Hrow)].
  - left. by constructor.
  - right. exists (r :: pre), row, post. split_and!; [done| |done].
    by constructor.
Qed.

Lemma action_error_known cfg pre :
  Forall (λ row, ¬ unknown cfg row) pre →
  action cfg pre = mkoutput (remap cfg <$> pre) [] None.
Proof. intros Hpre. unfold action. by rewrite loop_known. Qed.

Lemma action_error_unknown cfg pre row post :
  unknown_action cfg = "error" →
  Forall (λ row, ¬ unknown cfg row) pre → unknown cfg row →
  action cfg (pre ++ row :: post) =
    mkoutput (remap cfg <$> pre) (if unknowns cfg then [row] else [])
      (Some (exit_message (row !! taxid_column cfg))).
Proof.
  intros Herr Hpre Hunk.
  rewrite action_snoc by by rewrite action_error_known.
  rewrite action_error_known by done. simpl.
  rewrite (step_unknown _ _ _ Hunk), Herr. simpl.
  by destruct (unknowns cfg).
Qed.









(** X5.  When every id that the mapping leads to is an id of the database,
    every row written under [drop] or under [error] carries an id of the
    database. *)
Theorem written_ids_valid cfg rows row :
  targets_valid cfg →
  unknown_action cfg = "drop" ∨ unknown_action cfg = "error" →
  row ∈ written (action cfg rows) →
  is_valid cfg (row !! taxid_column cfg) = true.
Proof.
  intros Htargets Haction.
  assert (∀ l, Forall (λ row, ¬ unknown cfg row) l →
               row ∈ remap cfg <$> l →
               is_valid cfg (row !! taxid_column cfg) = true) as Hwritten.
  { intros l Hl (r & -> & Hr)%list_elem_of_fmap.
    apply remap_known_valid; [done|].
    rewrite Forall_forall in Hl. by apply Hl. }
  destruct Haction as [Hdrop|Herr].
  - unfold action. rewrite loop_other by by rewrite ?Hdrop.
    rewrite (bool_decide_eq_true_2 _ Hdrop). cbn [written app].
    apply Hwritten, Forall_forall. by intros r [? _]%list_elem_of_filter.
  - destruct (first_unknown cfg rows)
      as [Hall|(pre & r & post & -> & Hpre & Hr)].
    + rewrite action_error_known by done. by apply Hwritten.
    + rewrite action_error_unknown by done. by apply Hwritten.
Qed.

Lemma written_ids_valid_witness :
  let cfg := mkconfig "tax_id" "drop" true {["1"; "2"]} {["3" := "2"]} in
  let r i : gmap string string := {["tax_id" := i]} in
  targets_valid cfg ∧
  r "2" ∈ written (action cfg [r "3"; r "9"]) ∧
  is_valid cfg (r "2" !! taxid_column cfg) = true.
Proof.
  intros cfg r.
  assert (targets_valid cfg) as Htargets.
  { intros old new. unfold cfg. cbn [mergedict all_tax_ids].
    intros [_ <-]%lookup_singleton_Some.
    rewrite elem_of_union, !elem_of_singleton. by right. }
  assert (r "2" ∈ written (action cfg [r "3"; r "9"])) as Hin.
  { vm_compute. left. }
  split; [exact Htargets|]. split; [exact Hin|].
  apply (written_ids_valid cfg [r "3"; r "9"] (r "2") Htargets
           (or_introl eq_refl) Hin).
Defined.

End remapper_runs.

(** ** Numbers written in decimal *)

Section decimal.
Implicit Types (s : string) (c : Ascii.ascii).

Lemma digit_not_space c :
  is_Some (Py.digit c) → Py.is_whitespace c = false.
Proof.
  destruct c as [[] [] [] [] [] [] [] []]; intros [d Hd]; by vm_compute in Hd |- *.
Qed.

Lemma all_digits_cons c s :
  Py.all_digits (String c s) = true ↔
  is_Some (Py.digit c) ∧ Py.all_digits s = true.
Proof. simpl. by rewrite andb_true_iff, bool_decide_eq_true. Qed.

Lemma rstrip_digits s : Py.all_digits s = true → Py.rstrip s = s.
Proof.
  induction s as [|c s IH]; [done|]. intros [Hc Hs]%all_digits_cons.
  simpl. by rewrite (digit_not_space c Hc), IH.
Qed.


(** [int] on a string of digits. *)
Lemma int_digits s :
  Py.isnumeric s = true →
  Py.int s = from_option Ok (Raise ValueError) (Py.digits_value 0 s).
Proof.
  unfold Py.isnumeric. intros [Hs Hd]%andb_true_iff.
  destruct s as [|c s]; [done|].
  pose proof (rstrip_digits _ Hd) as Hr.
  apply all_digits_cons in Hd as [Hc _].
  unfold Py.int. cbn [Py.lstrip]. rewrite (digit_not_space c Hc), Hr.
  destruct c as [[] [] [] [] [] [] [] []];
    try (by destruct Hc as [d Hd]; vm_compute in Hd).
  all: cbn [Py.truthy]; by destruct (Py.digits_value 0 _).
Qed.


(** *** [str] and [int] *)

Lemma all_digits_string_of_uint (d : Decimal.uint) :
  Py.all_digits (DecimalString.NilEmpty.string_of_uint d) = true.
Proof. induction d; simpl; by rewrite ?IHd. Qed.

Lemma string_of_uint_truthy (d : Decimal.uint) :
  d ≠ Decimal.Nil →
  Py.truthy (DecimalString.NilEmpty.string_of_uint d) = true.
Proof. by destruct d. Qed.

Lemma digits_value_pos (d : Decimal.uint) (acc : positive) :
  Py.digits_value (Z.pos acc) (DecimalString.NilEmpty.string_of_uint d) =
  Some (Z.pos (Pos.of_uint_acc d acc)).
Proof.
  revert acc. induction d; intros acc; [done|..]; cbn; rewrite <-IHd; f_equal; lia.
Qed.

Lemma digits_value_zero (d : Decimal.uint) :
  Py.digits_value 0 (DecimalString.NilEmpty.string_of_uint d) =
  Some (Z.of_N (Pos.of_uint d)).
Proof.
  induction d; [done|exact IHd|..]; cbn; by rewrite <-digits_value_pos.
Qed.

Lemma int_string_of_uint (p : positive) :
  let s := DecimalString.NilEmpty.string_of_uint (Pos.to_uint p) in
  Py.isnumeric s = true ∧ Py.digits_value 0 s = Some (Z.pos p).
Proof.
  intros s. split.
  - unfold Py.isnumeric, s. rewrite all_digits_string_of_uint.
    rewrite string_of_uint_truthy; [done|].
    apply DecimalPos.Unsigned.to_uint_nonnil.
  - unfold s. by rewrite digits_value_zero, DecimalPos.Unsigned.of_to.
Qed.

(** [int(str(n))] is [n]. *)
Lemma int_str (n : Z) : Py.int (Py.str n) = Ok n.
Proof.
  destruct n as [|p|p]; [done|..]; unfold Py.str; cbn [Z.to_int];
    destruct (int_string_of_uint p) as [Hnum Hv].
  - cbn [DecimalString.NilEmpty.string_of_int].
    by rewrite (int_digits _ Hnum), Hv.
  - cbn [DecimalString.NilEmpty.string_of_int]. unfold Py.int.
    apply andb_true_iff in Hnum as [Hs Hd].
    cbn [Py.lstrip]. replace (Py.is_whitespace "-") with false by done.
    cbn [Py.rstrip]. rewrite (rstrip_digits _ Hd).
    replace (Py.is_whitespace "-") with false by done. cbn [andb].
    by rewrite Hs, Hv.
Qed.

Lemma str_not_empty (n : Z) : Py.str n ≠ "".
Proof.
  destruct n as [|p|p]; [done| |done]. unfold Py.str. simpl.
  pose proof (DecimalPos.Unsigned.to_uint_nonnil p).
  by destruct (Pos.to_uint p).
Qed.

End decimal.

(** ** The id column and the header lines of the remapper *)

Section column.
Import UpdateTaxids.
Implicit Types (fs : list string) (col : string).










End column.

(** ** The repair rule and the search, again *)

Section repair.
Import Greengenes.
Implicit Types (keys : list string) (g k : string).

(** X9.  The repair rule changes nothing when it is applied to its own
    result: a name that has got its space is left as it is. *)
Theorem add_space_again species genus repaired :
  _add_space species genus = Ok repaired →
  _add_space repaired genus = Ok repaired.
Proof.
  destruct (Py.startswith species genus) eqn:Hpre.
  - apply startswith_iff in Hpre as [rest ->]. rewrite add_space_app.
    destruct rest as [|c rest]; [done|].
    destruct (Py.is_space_char c) eqn:Hc; intros [= <-].
    + by rewrite add_space_app, Hc.
    + by rewrite (add_space_app genus (" " +:+ String c rest)).
  - rewrite add_space_no_prefix by done. intros [= <-].
    by apply add_space_no_prefix.
Qed.

Lemma add_space_again_witness :
  _add_space "Escherichiacoli" "Escherichia" = Ok "Escherichia coli" ∧
  _add_space "Escherichia coli" "Escherichia" = Ok "Escherichia coli".
Proof.
  split; [reflexivity|].
  apply (add_space_again "Escherichiacoli" "Escherichia" "Escherichia coli").
  reflexivity.
Defined.

(** X10.  The repair rule raises in one case only, the species that is its
    genus, and then it raises [IndexError]; on any other pair of names it
    returns a name, which is the species or the species with one character
    more. *)
Theorem add_space_raises_iff species genus :
  (∀ e, _add_space species genus = Raise e ↔
        e = IndexError ∧ species = genus) ∧
  (∀ repaired, _add_space species genus = Ok repaired →
     repaired = species ∨
     String.length repaired = S (String.length species)).
Proof.
  split.
  - intros e. split.
    + destruct (decide (species = genus)) as [->|Hne].
      { rewrite add_space_self. by intros [= <-]. }
      by rewrite add_space_spec.
    + intros [-> ->]. apply add_space_self.
  - intros repaired. destruct (Py.startswith species genus) eqn:Hpre.
    + apply startswith_iff in Hpre as [rest ->]. rewrite add_space_app.
      destruct rest as [|c rest]; [done|].
      destruct (Py.is_space_char c); intros [= <-]; [by left|right].
      rewrite !app_length. simpl. lia.
    + rewrite add_space_no_prefix by done. intros [= <-]. by left.
Qed.

(** The empty name is below every first character. *)
Lemma sorted_not_below_first keys c i g :
  StronglySorted String.le keys → keys !! i = Some g →
  (Py.bisect_left keys (String c "") ≤ i)%nat → Py.truthy g = true.
Proof.
  intros Hs Hg Hstart. destruct g as [|c0 g0]; [|done].
  pose proof (bisect_left_spec keys (String c "") i "" Hs Hg) as [_ Hlt].
  assert (i < Py.bisect_left keys (String c ""))%nat; [by apply Hlt|lia].
Qed.

(** X11.  A genus that the search over the sorted genus names returns is
    never the empty name, so that the test [if genus] of the cleaner only
    tells a genus from [None]: whenever a genus is found for a name, the
    repair of the name succeeds and an update is staged for it. *)
Theorem found_genus_is_staged (all_genus : gmap string string) tax_name g :
  find_genus (sorted_keys all_genus) tax_name = Ok (Some g) →
  Py.truthy g = true ∧
  ∃ new_tax_name,
    _add_space tax_name g = Ok new_tax_name ∧
    ∀ args tax_id,
      stage (sorted_keys all_genus) args (tax_id, tax_name) =
        Ok (args ++ [(new_tax_name, tax_id)]).
Proof.
  intros Hfind.
  assert (Py.truthy g = true) as Hg.
  { destruct tax_name as [|c rest]; [done|].
    pose proof Hfind as (i & (Hi & Hstart & _) & _)%find_genus_Some;
      [|apply sorted_keys_strongly].
    eapply sorted_not_below_first; [apply sorted_keys_strongly|done..]. }
  split; [done|].
  destruct (add_space_accepted _ _ _ Hfind) as (ch & rest & _ & Hadd).
  eexists. split; [exact Hadd|]. intros args tax_id.
  unfold stage. rewrite Hfind. simpl. by rewrite Hg, Hadd.
Qed.

Lemma found_genus_is_staged_witness :
  let all_genus : gmap string string := {["Escherichia" := "GG00000005"]} in
  find_genus (sorted_keys all_genus) "Escherichiacoli" =
    Ok (Some "Escherichia") ∧
  Py.truthy "Escherichia" = true.
Proof.
  intros all_genus.
  assert (find_genus (sorted_keys all_genus) "Escherichiacoli" =
            Ok (Some "Escherichia")) as Hfind by (vm_compute; reflexivity).
  split; [exact Hfind|].
  apply (found_genus_is_staged all_genus "Escherichiacoli" "Escherichia" Hfind).
Defined.

End repair.

(** ** What the cleaning pass does to a store *)

Section cleaner_effects.
Import Greengenes.
Implicit Types (c : db) (nms : list Name.t) (args : list (string * string))
  (keys : list string).

Lemma dom_foldl_insert (rows : list (string * string))
    (d : gmap string string) :
  dom (foldl (λ d kv, <[kv.1 := kv.2]> d) d rows) =
  dom d ∪ list_to_set rows.*1.
Proof.
  revert d. induction rows as [|[k v] rows IH]; intros d; simpl.
  { by rewrite (right_id_L ∅ (∪)). }
  rewrite IH, dom_insert_L. by rewrite (assoc_L (∪)), (comm_L (∪) (dom d)).
Qed.

Lemma elem_of_sorted_keys (rows : list (string * string)) k :
  k ∈ sorted_keys (dict rows) ↔ k ∈ rows.*1.
Proof.
  unfold sorted_keys, Py.sorted, dict.
  rewrite merge_sort_Permutation, elem_of_elements, dom_foldl_insert.
  rewrite dom_empty_L, (left_id_L ∅ (∪)). apply elem_of_list_to_set.
Qed.

Lemma sorted_keys_NoDup (d : gmap string string) : NoDup (sorted_keys d).
Proof.
  unfold sorted_keys, Py.sorted. rewrite merge_sort_Permutation.
  apply NoDup_elements.
Qed.

Lemma elem_of_select_genus c name tax_id :
  (name, tax_id) ∈ select_genus c ↔
  ∃ n m, n ∈ nodes c ∧ m ∈ names c ∧
    Node.tax_id n = Name.tax_id m ∧ Node.rank n = "genus" ∧
    name = Name.tax_name m ∧ tax_id = Name.tax_id m.
Proof.
  unfold select_genus. split.
  - intros (n & (m & Hin & Hm)%list_elem_of_bind & Hn)%list_elem_of_bind.
    case_bool_decide as Hg; [|by apply elem_of_nil in Hin].
    apply list_elem_of_singleton in Hin as [= -> ->]. destruct Hg.
    by exists n, m.
  - intros (n & m & Hn & Hm & Hid & Hrank & -> & ->).
    apply list_elem_of_bind. exists n. split; [|done].
    apply list_elem_of_bind. exists m. split; [|done].
    rewrite bool_decide_eq_true_2 by done. by apply list_elem_of_singleton.
Qed.

(** X12.  The list that the cleaner searches holds the names of the nodes
    of rank genus, each once, in ascending order. *)
Theorem genus_keys c :
  let keys := sorted_keys (dict (select_genus c)) in
  StronglySorted String.le keys ∧ NoDup keys ∧
  ∀ k, k ∈ keys ↔
    ∃ n m, n ∈ nodes c ∧ m ∈ names c ∧
      Node.tax_id n = Name.tax_id m ∧ Node.rank n = "genus" ∧
      Name.tax_name m = k.
Proof.
  intros keys. split_and!.
  - apply sorted_keys_strongly.
  - apply sorted_keys_NoDup.
  - intros k. unfold keys. rewrite elem_of_sorted_keys, list_elem_of_fmap.
    split.
    + intros ([name tax_id] & -> & Hin).
      apply elem_of_select_genus in Hin
        as (n & m & Hn & Hm & Hid & Hrank & -> & _).
      by exists n, m.
    + intros (n & m & Hn & Hm & Hid & Hrank & <-).
      exists (Name.tax_name m, Name.tax_id m). split; [done|].
      apply elem_of_select_genus. by exists n, m.
Qed.

(** *** When the pass raises *)

Lemma stage_Ok keys args tax_id tax_name :
  tax_name ≠ "" → ∃ args', stage keys args (tax_id, tax_name) = Ok args'.
Proof.
  intros Hname. unfold stage.
  destruct (find_genus keys tax_name) as [[g|]|e] eqn:Hfind; simpl.
  - destruct (add_space_accepted _ _ _ Hfind) as (ch & rest & _ & ->).
    simpl. destruct (Py.truthy g); eauto.
  - eauto.
  - by destruct tax_name.
Qed.

Lemma stage_all_raises keys args rows :
  match stage_all keys args rows with
  | Ok _ => Forall (λ row, row.2 ≠ "") rows
  | Raise e => e = IndexError ∧ Exists (λ row, row.2 = "") rows
  end.
Proof.
  revert args. induction rows as [|[tax_id tax_name] rows IH]; intros args.
  { simpl. constructor. }
  cbn [stage_all]. destruct (decide (tax_name = "")) as [->|Hname].
  { simpl. split; [done|]. by left. }
  destruct (stage_Ok keys args tax_id tax_name Hname) as [args' ->]. simpl.
  specialize (IH args'). destruct (stage_all keys args' rows).
  - by constructor.
  - destruct IH as [-> Hex]. split; [done|]. by right.
Qed.

(** X13.  The cleaning pass raises when, and only when, a species under a
    genus has the empty name: the search reads the first character of the
    name.  The exception is [IndexError], and the store is then left as it
    was. *)
Theorem clean_species_raises c :
  (raised (_clean_species c) = None ↔
   ∀ tax_id tax_name,
     (tax_id, tax_name) ∈ select_candidates c → tax_name ≠ "") ∧
  (∀ e, raised (_clean_species c) = Some e →
        e = IndexError ∧ store (_clean_species c) = c).
Proof.
  rewrite clean_species_unfold.
  pose proof (stage_all_raises (sorted_keys (dict (select_genus c))) []
                (select_candidates c)) as Hstage.
  destruct (stage_all _ [] (select_candidates c)) as [args|e0]; cbn [raised store].
  - split; [|done]. split; [|done]. intros _ tax_id tax_name Hin.
    rewrite Forall_forall in Hstage. by apply (Hstage (tax_id, tax_name)).
  - destruct Hstage as [-> Hex]. split.
    + split; [done|]. intros Hall.
      apply Exists_exists in Hex as ([tax_id tax_name] & Hin & Hempty).
      by destruct (Hall tax_id tax_name Hin).
    + by intros e [= <-].
Qed.

(** *** What the pass changes *)

(** A row of [names] after the updates: it keeps its node and its flag,
    and its name is the one it had or the one of an update of its node. *)
Lemma executemany_row nms args i m :
  nms !! i = Some m →
  ∃ m', executemany nms args !! i = Some m' ∧
    Name.tax_id m' = Name.tax_id m ∧
    Name.is_primary m' = Name.is_primary m ∧
    (Name.tax_name m' = Name.tax_name m ∨
     ∃ a, a ∈ args ∧ a.2 = Name.tax_id m ∧ a.1 = Name.tax_name m').
Proof.
  unfold executemany. revert nms m.
  induction args as [|a args IH]; intros nms m Hm.
  { exists m. split_and!; [done..|by left]. }
  simpl.
  assert (update_name nms a !! i =
            Some (if bool_decide (Name.tax_id m = a.2)
                  then Name.mk (Name.tax_id m) a.1 (Name.is_primary m)
                  else m)) as Hstep.
  { unfold update_name. by rewrite list_lookup_fmap, Hm. }
  destruct (IH _ _ Hstep) as (m' & Hm' & Hid & Hflag & Hname).
  exists m'. split; [done|].
  case_bool_decide as Ha; cbn [Name.tax_id Name.is_primary Name.tax_name] in *.
  - split_and!; [done..|]. right.
    destruct Hname as [Hname|(a' & Ha' & Hid' & Hname)].
    + exists a. split_and!; [by left|done..].
    + exists a'. split_and!; [by right|done..].
  - split_and!; [done..|].
    destruct Hname as [Hname|(a' & Ha' & Hid' & Hname)]; [by left|right].
    exists a'. split_and!; [by right|done..].
Qed.

(** X14.  The cleaning pass changes nothing but names: the nodes and the
    sources are what they were, and so are the rows of [names], one by one,
    except for their names.  A name that is changed is the repair, by a
    genus name that the search found for it, of a name stored for the same
    node, which is a species under a genus. *)
Theorem clean_species_preserves c :
  let keys := sorted_keys (dict (select_genus c)) in
  let c' := store (_clean_species c) in
  nodes c' = nodes c ∧ source c' = source c ∧
  length (names c') = length (names c) ∧
  ∀ i m, names c !! i = Some m →
    ∃ m', names c' !! i = Some m' ∧
      Name.tax_id m' = Name.tax_id m ∧
      Name.is_primary m' = Name.is_primary m ∧
      (Name.tax_name m' = Name.tax_name m ∨
       ∃ tax_name g,
         (Name.tax_id m, tax_name) ∈ select_candidates c ∧
         find_genus keys tax_name = Ok (Some g) ∧
         _add_space tax_name g = Ok (Name.tax_name m')).
Proof.
  intros keys c'. unfold c'. rewrite clean_species_unfold. fold keys.
  destruct (stage_all keys [] (select_candidates c)) as [args|e] eqn:Hstage;
    cbn [store nodes names source].
  2: { split_and!; [done..|]. intros i m Hm. exists m.
       split_and!; [done..|by left]. }
  split_and!; [done..| |].
  { rewrite <-(length_fmap Name.tax_id (executemany _ _)).
    by rewrite executemany_tax_ids, length_fmap. }
  intros i m Hm.
  destruct (executemany_row (names c) args i m Hm)
    as (m' & Hm' & Hid & Hflag & Hname).
  exists m'. split_and!; [done..|].
  destruct Hname as [Hname|(a & Ha & Haid & Hname)]; [by left|right].
  destruct (stage_all_staged _ _ _ _ Hstage a Ha)
    as [Hin|(tax_name & g & Hin & Hfind & _ & Hadd)];
    [by apply elem_of_nil in Hin|].
  exists tax_name, g. by rewrite <-Haid, <-Hname.
Qed.

(** X15.  In a store where no two names belong to the same node, a pass
    that does not raise repairs every species under a genus for which the
    search finds a genus name: the row of the species carries, after the
    pass, the name that the repair rule makes of its name and of that
    genus name. *)
Theorem clean_species_repairs c i m g :
  let keys := sorted_keys (dict (select_genus c)) in
  NoDup (Name.tax_id <$> names c) →
  raised (_clean_species c) = None →
  names c !! i = Some m →
  (Name.tax_id m, Name.tax_name m) ∈ select_candidates c →
  find_genus keys (Name.tax_name m) = Ok (Some g) →
  ∃ new_tax_name,
    _add_space (Name.tax_name m) g = Ok new_tax_name ∧
    names (store (_clean_species c)) !! i =
      Some (Name.mk (Name.tax_id m) new_tax_name (Name.is_primary m)).
Proof.
  intros keys Hnames. rewrite clean_species_unfold. fold keys.
  destruct (stage_all keys [] (select_candidates c)) as [args|e] eqn:Hstage;
    [|done].
  cbn [raised store names]. intros _ Hm Hcand Hfind.
  assert (Py.truthy g = true) as Hg.
  { destruct (Name.tax_name m) as [|ch rest] eqn:Hname; [done|].
    pose proof Hfind as (j & (Hj & Hstart & _) & _)%find_genus_Some;
      [|apply sorted_keys_strongly].
    eapply sorted_not_below_first; [apply sorted_keys_strongly|done..]. }
  destruct (add_space_accepted _ _ _ Hfind) as (ch & rest & _ & Hadd).
  eexists. split; [exact Hadd|].
  apply executemany_target; [done| |].
  - eexists (_, Name.tax_id m). split; [|done].
    by eapply (stage_all_complete keys [] (select_candidates c)).
  - intros a Ha Haid.
    destruct (stage_all_staged _ _ _ _ Hstage a Ha)
      as [Hin|(tax_name & g' & Hin & Hfind' & _ & Hadd')];
      [by apply elem_of_nil in Hin|].
    apply select_candidates_iff in Hin
      as (snode & gnode & sname & gname & _ & _ & Hsname & _ & _
          & Hsid & _ & _ & _ & Hida & ->).
    assert (sname = m) as ->.
    { eapply (NoDup_fmap_eq Name.tax_id (names c)); [done|done| |congruence].
      by eapply list_elem_of_lookup_2. }
    rewrite Hfind in Hfind'. injection Hfind' as <-.
    rewrite Hadd in Hadd'. by injection Hadd' as <-.
Qed.

Lemma clean_species_repairs_witness :
  let c :=
    mkdb [Node.mk "GG00000005" "GG00000001" "genus" None;
          Node.mk "GG00000006" "GG00000005" "species" None]
         [Name.mk "GG00000005" "Escherichia" 1;
          Name.mk "GG00000006" "Escherichiacoli" 1] [] in
  NoDup (Name.tax_id <$> names c) ∧
  ∃ new_tax_name,
    _add_space "Escherichiacoli" "Escherichia" = Ok new_tax_name ∧
    names (store (_clean_species c)) !! 1%nat =
      Some (Name.mk "GG00000006" new_tax_name 1).
Proof.
  intros c.
  assert (NoDup (Name.tax_id <$> names c)) as Hnames.
  { apply (bool_decide_unpack _). by vm_compute. }
  split; [exact Hnames|].
  apply (clean_species_repairs c 1
           (Name.mk "GG00000006" "Escherichiacoli" 1) "Escherichia" Hnames).
  - by vm_compute.
  - reflexivity.
  - apply (bool_decide_unpack _). by vm_compute.
  - by vm_compute.
Defined.

End cleaner_effects.

(** ** What a load puts into the store *)

Section loader_contents.
Import Greengenes.
Implicit Types (st : loader) (c : db) (nms : list Name.t)
  (classes : list (string * string)) (parent : option string)
  (rows : list (result (list (string * string)))).

(** X16.  A name that [_get_or_insert] has returned an identifier for leads
    to that identifier from then on: the lookup by name finds it, and
    another call for the name returns it and leaves the store as it is,
    whatever the rank, the parent and the source of that call. *)
Theorem get_or_insert_again name rank parent source_id st st' tax_id :
  _get_or_insert name rank parent source_id st = Ok (st', tax_id) →
  select_tax_id (names (con st')) name = Some tax_id ∧
  ∀ rank' parent' source_id',
    _get_or_insert name rank' parent' source_id' st' = Ok (st', tax_id).
Proof.
  intros Hins.
  assert (select_tax_id (names (con st')) name = Some tax_id) as Hsel.
  { apply get_or_insert_Ok in Hins as [[Hfound ->]|(Hnone & -> & ->)];
      [done|].
    cbn [con names]. by apply select_tax_id_snoc. }
  split; [done|]. intros rank' parent' source_id'.
  unfold _get_or_insert. by rewrite Hsel.
Qed.

Lemma get_or_insert_again_witness :
  let st := mkloader (mkdb [] [] []) 0 in
  let st' :=
    mkloader (mkdb [Node.mk "GG00000000" "GG00000000" "root" None]
                   [Name.mk "GG00000000" "root" 1] []) 1 in
  _get_or_insert "root" "root" None None st = Ok (st', "GG00000000") ∧
  select_tax_id (names (con st')) "root" = Some "GG00000000".
Proof.
  intros st st'. split; [reflexivity|].
  apply (get_or_insert_again "root" "root" None None st st' "GG00000000").
  reflexivity.
Defined.

(** *** The names of a load *)

Lemma get_or_insert_names name rank parent source_id st st' tax_id x :
  _get_or_insert name rank parent source_id st = Ok (st', tax_id) →
  x ∈ Name.tax_name <$> names (con st') ↔
  x ∈ Name.tax_name <$> names (con st) ∨ x = name.
Proof.
  intros [[Hfound ->]|(Hnone & -> & ->)]%get_or_insert_Ok.
  - split; [by left|]. intros [Hx| ->]; [done|].
    apply select_tax_id_Some in Hfound as (i & m & Hm & <- & _).
    apply list_elem_of_fmap. exists m. split; [done|].
    by eapply list_elem_of_lookup_2.
  - cbn [con names]. rewrite fmap_app, elem_of_app. simpl.
    by rewrite list_elem_of_singleton.
Qed.

Lemma walk_names source_id classes parent st st' x :
  walk source_id classes parent st = Ok st' →
  x ∈ Name.tax_name <$> names (con st') ↔
  x ∈ Name.tax_name <$> names (con st) ∨ x ∈ classes.*2.
Proof.
  revert parent st. induction classes as [|[rank name] classes IH];
    intros parent st.
  { intros [= <-]. split; [by left|]. intros [|Hx]; [done|].
    by apply elem_of_nil in Hx. }
  intros (st1 & tax_id & Hins & Hwalk)%walk_cons.
  rewrite (IH _ _ Hwalk), (get_or_insert_names _ _ _ _ _ _ _ x Hins).
  rewrite fmap_cons, elem_of_cons. simpl. tauto.
Qed.

Lemma load_loop_names source_id rows st st' x :
  load_loop source_id rows st = Ok st' →
  x ∈ Name.tax_name <$> names (con st') ↔
  x ∈ Name.tax_name <$> names (con st) ∨
  ∃ classes, Ok classes ∈ rows ∧ x ∈ classes.*2.
Proof.
  revert st. induction rows as [|[classes|e] rows IH]; intros st.
  - intros [= <-]. split; [by left|]. intros [|(classes & Hin & _)]; [done|].
    by apply elem_of_nil in Hin.
  - intros (st1 & Hwalk & Hloop)%load_loop_cons.
    rewrite (IH _ Hloop), (walk_names _ _ _ _ _ x Hwalk). split.
    + intros [[Hx|Hx]|(cl & Hin & Hx)]; [by left| |].
      * right. exists classes. split; [by left|done].
      * right. exists cl. split; [by right|done].
    + intros [Hx|(cl & Hin & Hx)]; [by left; left|].
      apply elem_of_cons in Hin as [[= <-]|Hin]; [by left; right|].
      right. by exists cl.
  - done.
Qed.

Lemma load_rows_loaded rows src :
  raised (_load_rows rows (mkdb [] [] src)) = None →
  ∃ st, load_loop (_get_source_id (mkdb [] [] src)) rows
          (mkloader (mkdb [] [] src) 0) = Ok st ∧
        store (_load_rows rows (mkdb [] [] src)) = con st ∧
        loader_inv st.
Proof.
  unfold _load_rows. simpl.
  destruct (load_loop _ rows _) as [st|e] eqn:Hloop; [|done].
  intros _. exists st. split_and!; [done..|].
  eapply load_loop_inv; [done|]. apply loader_inv_empty.
Qed.

(** X17.  After a load into an empty store, the names stored are the names
    of the lineages, each of them once, and there is one node for each:
    a name that comes again, at whatever rank and under whatever parent,
    gets no node of its own. *)
Theorem loaded_names rows src :
  let loaded := _load_rows rows (mkdb [] [] src) in
  let given :=
    rows ≫= λ row,
      match row with Ok classes => classes.*2 | Raise _ => [] end in
  raised loaded = None →
  (∀ name, name ∈ Name.tax_name <$> names (store loaded) ↔ name ∈ given) ∧
  length (nodes (store loaded)) = length (remove_dups given) ∧
  length (names (store loaded)) = length (remove_dups given).
Proof.
  intros loaded given Hraised. unfold loaded in *.
  destruct (load_rows_loaded rows src Hraised) as (st & Hloop & -> & Hinv).
  assert (∀ name, name ∈ Name.tax_name <$> names (con st) ↔ name ∈ given)
    as Hnames.
  { intros name. rewrite (load_loop_names _ _ _ _ name Hloop). simpl.
    unfold given. rewrite list_elem_of_bind. split.
    - intros [Hin|(classes & Hin & Hname)]; [by apply elem_of_nil in Hin|].
      by exists (Ok classes).
    - intros ([classes|e] & Hname & Hin); [|by apply elem_of_nil in Hname].
      right. by exists classes. }
  assert (length (names (con st)) = length (remove_dups given)) as Hlen.
  { rewrite <-(length_fmap Name.tax_name). apply Permutation_length.
    apply NoDup_Permutation; [apply Hinv|apply NoDup_remove_dups|].
    intros name. by rewrite Hnames, elem_of_remove_dups. }
  split_and!; [done| |done]. rewrite <-Hlen.
  rewrite <-(length_fmap Node.tax_id), <-(inv_names _ Hinv).
  by rewrite length_fmap.
Qed.

Lemma loaded_names_witness :
  let rows :=
    [Ok [("root", "root"); ("kingdom", "Bacteria"); ("otu", "1")];
     Ok [("root", "root"); ("kingdom", "Bacteria"); ("otu", "2")]] in
  raised (_load_rows rows (mkdb [] [] [])) = None ∧
  length (nodes (store (_load_rows rows (mkdb [] [] [])))) =
    length (remove_dups ["root"; "Bacteria"; "1"; "root"; "Bacteria"; "2"]).
Proof.
  intros rows. split; [reflexivity|].
  apply (loaded_names rows []). reflexivity.
Defined.

(** *** Loading more rows *)

Lemma load_loop_app source_id rows1 rows2 st :
  load_loop source_id (rows1 ++ rows2) st =
    st1 ← load_loop source_id rows1 st; load_loop source_id rows2 st1.
Proof.
  revert st. induction rows1 as [|[classes|e] rows1 IH]; intros st; [done| |done].
  simpl. destruct (walk source_id classes None st) as [st1|e]; [|done].
  simpl. apply IH.
Qed.

(** X18.  The load goes through the rows in their order and never goes
    back: when the load of some rows followed by more rows succeeds on an
    empty store, so does the load of the first rows alone, and the store it
    leaves is the beginning of the other one, the nodes and the names of
    the further rows coming after it. *)
Theorem load_more_rows rows1 rows2 src :
  let c0 := mkdb [] [] src in
  raised (_load_rows (rows1 ++ rows2) c0) = None →
  raised (_load_rows rows1 c0) = None ∧
  extends (store (_load_rows rows1 c0)) (store (_load_rows (rows1 ++ rows2) c0)).
Proof.
  intros c0 Hraised.
  destruct (load_rows_loaded _ src Hraised) as (st & Hloop & Hstore & _).
  fold c0 in Hloop, Hstore. rewrite Hstore.
  rewrite load_loop_app in Hloop.
  unfold _load_rows. cbn [c0 nodes names has_row orb]. fold c0.
  destruct (load_loop (_get_source_id c0) rows1 (mkloader c0 0))
    as [st1|e] eqn:Hloop1; [|done].
  simpl in Hloop. split; [done|]. cbn [store].
  by eapply load_loop_extends.
Qed.

Lemma load_more_rows_witness :
  let rows1 := [Ok [("root", "root"); ("kingdom", "Bacteria")]] in
  let rows2 := [Ok [("root", "root"); ("kingdom", "Archaea")]] in
  raised (_load_rows (rows1 ++ rows2) (mkdb [] [] [])) = None ∧
  raised (_load_rows rows1 (mkdb [] [] [])) = None.
Proof.
  intros rows1 rows2. split; [reflexivity|].
  apply (load_more_rows rows1 rows2 []). reflexivity.
Defined.

(** *** A lineage of new names *)

Lemma chain_lookup classes k parent j rank name :
  classes !! j = Some (rank, name) →
  chain k parent classes !! j =
    Some (Node.mk (format_tax_id (k + j))
            (match j with
             | O => default (format_tax_id k) parent
             | S j' => format_tax_id (k + j')
             end) rank None,
          Name.mk (format_tax_id (k + j)) name 1).
Proof.
  revert k parent j. induction classes as [|[r n] classes IH];
    intros k parent j; [done|].
  destruct j as [|j]; simpl.
  { intros [= -> ->]. by rewrite Nat.add_0_r. }
  intros Hj. rewrite (IH _ _ _ Hj).
  replace (S k + j)%nat with (k + S j)%nat by lia.
  destruct j as [|j]; simpl; [by rewrite Nat.add_0_r|].
  by replace (S (k + j))%nat with (k + S j)%nat by lia.
Qed.

Lemma length_chain classes k parent :
  length (chain k parent classes) = length classes.
Proof.
  revert k parent. induction classes as [|[r n] classes IH]; intros k parent;
    [done|].
  simpl. by rewrite IH.
Qed.

Lemma walk_chain classes parent st :
  NoDup classes.*2 →
  (∀ x, x ∈ classes.*2 → x ∉ Name.tax_name <$> names (con st)) →
  walk None classes parent st =
    Ok (mkloader
          (mkdb (nodes (con st) ++ (chain (count st) parent classes).*1)
                (names (con st) ++ (chain (count st) parent classes).*2)
                (source (con st)))
          (count st + length classes)).
Proof.
  revert parent st. induction classes as [|[rank name] classes IH];
    intros parent st Hnd Hfresh.
  { simpl. rewrite !app_nil_r, Nat.add_0_r. by destruct st as [[] ?]. }
  apply NoDup_cons in Hnd as [Hname Hnd]. cbn [walk].
  assert (select_tax_id (names (con st)) name = None) as Hnone.
  { apply select_tax_id_None, Hfresh. by left. }
  unfold _get_or_insert. rewrite Hnone. cbn [bind_source_id mbind result_bind].
  cbn [fst snd]. rewrite IH; [|done|].
  - cbn [con count nodes names source chain fmap list_fmap fst snd].
    rewrite <-!app_assoc. simpl. by rewrite Nat.add_succ_r.
  - intros x Hx. cbn [con names]. rewrite fmap_app, elem_of_app. simpl.
    rewrite list_elem_of_singleton. intros [Hin| ->]; [|done].
    apply (Hfresh x); [by right|done].
Qed.

(** X19.  Loaded into an empty store that has no source row for
    greengenes, a lineage of names that are all different becomes a chain:
    the entries get the identifiers of 0, 1, 2, ... in their order, each
    with its rank and its name, the first entry is its own parent and every
    other entry hangs under the entry before it. *)
Theorem fresh_lineage_chain classes src :
  NoDup classes.*2 → _get_source_id (mkdb [] [] src) = None →
  let c := store (_load_rows [Ok classes] (mkdb [] [] src)) in
  _load_rows [Ok classes] (mkdb [] [] src) = mkrun c [] None ∧
  length (nodes c) = length classes ∧
  length (names c) = length classes ∧
  ∀ k rank name, classes !! k = Some (rank, name) →
    nodes c !! k =
      Some (Node.mk (format_tax_id k) (format_tax_id (pred k)) rank None) ∧
    names c !! k = Some (Name.mk (format_tax_id k) name 1).
Proof.
  intros Hnd Hsrc c.
  assert (_load_rows [Ok classes] (mkdb [] [] src) =
            mkrun (mkdb (chain 0 None classes).*1 (chain 0 None classes).*2 src)
                  [] None) as Hload.
  { unfold _load_rows. rewrite Hsrc. cbn [nodes names has_row orb load_loop].
    rewrite walk_chain; [done..|]. intros x _ Hx. by apply elem_of_nil in Hx. }
  unfold c. rewrite Hload. cbn [store nodes names].
  split_and!; [done|by rewrite length_fmap, length_chain..|].
  intros k rank name Hk. rewrite !list_lookup_fmap.
  rewrite (chain_lookup _ _ _ _ _ _ Hk). simpl. by destruct k.
Qed.

Lemma fresh_lineage_chain_witness :
  let classes := [("root", "root"); ("kingdom", "Bacteria"); ("otu", "42")] in
  NoDup classes.*2 ∧ _get_source_id (mkdb [] [] []) = None ∧
  length (nodes (store (_load_rows [Ok classes] (mkdb [] [] [])))) =
    length classes.
Proof.
  intros classes.
  assert (NoDup classes.*2) as Hnd.
  { apply (bool_decide_unpack _). by vm_compute. }
  split; [exact Hnd|]. split; [reflexivity|].
  apply (fresh_lineage_chain classes [] Hnd eq_refl).
Defined.

(** *** A store that knows the source *)

Lemma get_source_id_Some c id :
  (id, "greengenes") ∈ source c → ∃ row, _get_source_id c = Some row.
Proof.
  unfold _get_source_id. intros Hin.
  destruct (List.find _ (source c)) as [r|] eqn:Hfind; [by eexists|].
  apply list_elem_of_In in Hin.
  by apply (List.find_none _ _ Hfind) in Hin.
Qed.

(** X20.  When the table of the sources has a row for greengenes, nothing
    can be loaded: the identifier of the source is handed to the INSERT as
    the row that [fetchone()] returned, not as its first column, and the
    first node to be inserted raises [InterfaceError]; the store is left
    empty.  So does [db_load] on an archive whose first line is parsed. *)
Theorem load_with_source_row src id rank name classes rows line archive :
  (id, "greengenes") ∈ src →
  let c := mkdb [] [] src in
  _load_rows (Ok ((rank, name) :: classes) :: rows) c =
    mkrun c [] (Some InterfaceError) ∧
  (∀ parsed, parse_line line = Ok parsed →
     db_load c (line :: archive) = mkrun c [] (Some InterfaceError)).
Proof.
  intros Hsrc c.
  destruct (get_source_id_Some c id Hsrc) as [row Hrow].
  assert (∀ r n cl rs,
            _load_rows (Ok ((r, n) :: cl) :: rs) c =
              mkrun c [] (Some InterfaceError)) as Hload.
  { intros r n cl rs. unfold _load_rows. rewrite Hrow.
    cbn [c nodes names has_row orb load_loop walk].
    by rewrite get_or_insert_unbound. }
  split; [apply Hload|]. intros parsed Hline.
  destruct (parse_line_rooted _ _ Hline) as [tl ->].
  unfold db_load. cbn [c nodes has_row negb _parse_gg fmap list_fmap].
  rewrite Hline. fold c. by rewrite Hload.
Qed.

Lemma load_with_source_row_witness :
  let src := [(1%Z, "ncbi"); (2%Z, "greengenes")] in
  (2%Z, "greengenes") ∈ src ∧
  _load_rows [Ok [("root", "root")]] (mkdb [] [] src) =
    mkrun (mkdb [] [] src) [] (Some InterfaceError).
Proof.
  intros src.
  assert ((2%Z, "greengenes") ∈ src) as Hsrc.
  { apply (bool_decide_unpack _). by vm_compute. }
  split; [exact Hsrc|].
  apply (load_with_source_row src 2 "root" "root" [] [] "" [] Hsrc).
Defined.

End loader_contents.

(** ** Lines that the parser accepts and lines that it rejects *)

Section parser_lines.
Import Greengenes.
Implicit Types (s w line : string) (split : list (list string))
  (cls : list (string * string)).

Lemma rstrip_app_space s w :
  Py.rstrip w = "" → Py.rstrip (s +:+ w) = Py.rstrip s.
Proof.
  intros Hw. induction s as [|c s IH]; [done|].
  rewrite app_cons. simpl. by rewrite IH.
Qed.

(** X21.  White space at the end of a line, the line end among it, is not
    part of the line: with or without it the line is parsed to the same
    lineage, or rejected with the same exception. *)
Theorem parse_line_trailing_space line w :
  Py.rstrip w = "" → parse_line (line +:+ w) = parse_line line.
Proof. intros Hw. unfold parse_line. by rewrite rstrip_app_space. Qed.

Lemma parse_line_trailing_space_witness :
  let line := "42" +:+ String "009"%char "k__Bacteria" in
  let w := String "013"%char (String "010"%char "") in
  Py.rstrip w = "" ∧ parse_line (line +:+ w) = parse_line line.
Proof.
  intros line w. split; [reflexivity|].
  apply (parse_line_trailing_space line w). reflexivity.
Defined.

(** X22.  The last entry of a parsed lineage is the entry of the OTU, and
    its name is the id at the start of the line written in decimal: it
    reads back as the id, whereas the white space, the sign [+] and the
    zeros that the line had around the id are gone. *)
Theorem otu_entry line lineage :
  parse_line line = Ok lineage →
  ∃ text classes otu_id,
    Py.split (Py.rstrip line) (String "009"%char "") = [text; classes] ∧
    Py.int text = Ok otu_id ∧
    last lineage = Some ("otu", Py.str otu_id) ∧
    Py.int (Py.str otu_id) = Ok otu_id.
Proof.
  unfold parse_line.
  destruct (Py.split (Py.rstrip line) _) as [|text [|classes [|x l]]];
    try done.
  destruct (Py.int text) as [otu_id|] eqn:Hint; [|done]. simpl.
  intros (cl & middle & _ & _ & -> & _)%parse_classes_shape.
  exists text, classes, otu_id. split_and!; [done..| |apply int_str].
  by rewrite app_comm_cons, last_snoc.
Qed.

Lemma otu_entry_witness :
  let line := " +007" +:+ String "009"%char "k__Bacteria" in
  parse_line line = Ok [("root", "root"); ("kingdom", "Bacteria"); ("otu", "7")] ∧
  ∃ text classes otu_id,
    Py.split (Py.rstrip line) (String "009"%char "") = [text; classes] ∧
    Py.int text = Ok otu_id ∧
    last [("root", "root"); ("kingdom", "Bacteria"); ("otu", "7")] =
      Some ("otu", Py.str otu_id) ∧
    Py.int (Py.str otu_id) = Ok otu_id.
Proof.
  intros line. split; [reflexivity|].
  apply (otu_entry line). reflexivity.
Defined.

(** *** The classifications *)

Lemma classifications_cons_Ok item split cls :
  classifications (item :: split) = Ok cls →
  ∃ cls_key name, item = [cls_key; name] ∧
    (name = "" ∨ is_Some (_rank_map !! cls_key)) ∧
    ∃ cls', classifications split = Ok cls'.
Proof.
  destruct item as [|cls_key [|name [|x item]]]; try done. simpl.
  destruct (Py.truthy name) eqn:Hname.
  - unfold rank_of. destruct (_rank_map !! cls_key) as [r|] eqn:Hr; [|done].
    simpl. destruct (classifications split) as [tl|]; [|done].
    intros _. exists cls_key, name. split_and!; [done|by right|by eexists].
  - intros Hrest. exists cls_key, name. destruct name; [|done].
    split_and!; [done|by left|by eexists].
Qed.

Lemma classifications_raises_inv split e :
  classifications split = Raise e →
  (e = ValueError ∧ ∃ item, item ∈ split ∧ length item ≠ 2%nat) ∨
  (∃ cls_key name, e = KeyError cls_key ∧ [cls_key; name] ∈ split ∧
     name ≠ "" ∧ _rank_map !! cls_key = None).
Proof.
  induction split as [|item split IH]; [done|].
  assert (classifications split = Raise e →
    (e = ValueError ∧ ∃ item', item' ∈ item :: split ∧ length item' ≠ 2%nat) ∨
    (∃ cls_key name, e = KeyError cls_key ∧ [cls_key; name] ∈ item :: split ∧
       name ≠ "" ∧ _rank_map !! cls_key = None)) as Hrest.
  { intros [[-> (it & Hin & Hlen)]|(k & n & -> & Hin & Hn & Hk)]%IH.
    - left. split; [done|]. exists it. split; [by right|done].
    - right. exists k, n. split_and!; [done|by right|done..]. }
  destruct item as [|cls_key [|name [|x item]]].
  1,2,4: intros [= <-]; left; split; [done|]; eexists; split; [by left|done].
  simpl. destruct (Py.truthy name) eqn:Hname; [|done].
  unfold rank_of. destruct (_rank_map !! cls_key) as [r|] eqn:Hr; simpl.
  - destruct (classifications split) as [tl|e'] eqn:Hcls; [done|].
    simpl. intros [= <-]. by apply Hrest.
  - intros [= <-]. right. exists cls_key, name.
    split_and!; [done|by left| |done]. by intros ->.
Qed.

(** X23.  The classifications of a line are accepted when, and only when,
    every item is a rank key and a name, and every item with a name has one
    of the seven rank keys; an item without a name is skipped whatever its
    key.  Otherwise the parser raises [ValueError], for an item that is not
    a pair, or [KeyError] with the key, for a named item with another
    key. *)
Theorem classifications_accepts split :
  ((∃ cls, classifications split = Ok cls) ↔
   ∀ item, item ∈ split →
     ∃ cls_key name, item = [cls_key; name] ∧
       (name = "" ∨ is_Some (_rank_map !! cls_key))) ∧
  (∀ e, classifications split = Raise e →
     (e = ValueError ∧ ∃ item, item ∈ split ∧ length item ≠ 2%nat) ∨
     (∃ cls_key name, e = KeyError cls_key ∧ [cls_key; name] ∈ split ∧
        name ≠ "" ∧ _rank_map !! cls_key = None)).
Proof.
  split; [|apply classifications_raises_inv]. split.
  - induction split as [|item split IH]; intros [cls Hcls] it Hin.
    { by apply elem_of_nil in Hin. }
    apply classifications_cons_Ok in Hcls as (k & n & -> & Hn & Hrest).
    apply elem_of_cons in Hin as [->|Hin]; [by exists k, n|]. by apply IH.
  - induction split as [|item split IH]; intros Hall; [by eexists|].
    destruct IH as [tl Htl]. { intros it Hin. apply Hall. by right. }
    destruct (Hall item) as (k & n & -> & Hn); [by left|]. simpl.
    rewrite Htl. destruct (Py.truthy n) eqn:Htruthy; [|by eexists].
    destruct Hn as [->|[r Hr]]; [done|].
    unfold rank_of. rewrite Hr. simpl. by eexists.
Qed.

(** *** The species that is its genus *)

Lemma snoc2_inj {A} (l k : list A) (x y u v : A) :
  l ++ [x; y] = k ++ [u; v] → l = k ∧ x = u ∧ y = v.
Proof.
  replace (l ++ [x; y]) with ((l ++ [x]) ++ [y]) by by rewrite <-app_assoc.
  replace (k ++ [u; v]) with ((k ++ [u]) ++ [v]) by by rewrite <-app_assoc.
  intros [[-> ->]%app_inj_tail ->]%app_inj_tail. done.
Qed.

Lemma app_ne_self (g : string) c rest : g +:+ String c rest ≠ g.
Proof.
  intros Heq. apply (f_equal String.length) in Heq.
  rewrite app_length in Heq. simpl in Heq. lia.
Qed.

Lemma fix_species_raises cls e :
  fix_species ((root_name, root_name) :: cls) = Raise e ↔
  e = IndexError ∧
  ∃ before genus, cls = before ++ [("genus", genus); ("species", genus)].
Proof.
  destruct cls as [|[r1 species] cls0 _] using rev_ind.
  { split; [done|]. intros [_ (before & g & Heq)].
    by destruct before. }
  unfold fix_species. rewrite app_comm_cons, getitem_neg_snoc. simpl.
  case_bool_decide as Hr1.
  2: { split; [done|]. intros [_ (before & g & Heq)].
       replace (before ++ [("genus", g); ("species", g)])
         with ((before ++ [("genus", g)]) ++ [("species", g)]) in Heq
         by by rewrite <-app_assoc.
       by apply app_inj_tail in Heq as [_ [= -> _]]. }
  subst r1. destruct cls0 as [|[r2 genus] before _] using rev_ind.
  { simpl. split; [done|]. intros [_ (before & g & Heq)].
    by destruct before as [|? [|? ?]]. }
  replace ((root_name, root_name)
           :: (before ++ [(r2, genus)]) ++ [("species", species)])
    with (((root_name, root_name) :: before) ++
          [(r2, genus); ("species", species)])
    by (simpl; by rewrite <-app_assoc).
  rewrite getitem_neg_snoc2, <-(app_assoc before). simpl.
  case_bool_decide as Hr2.
  2: { split; [done|]. intros [_ (b & g & Heq)].
       by apply snoc2_inj in Heq as (_ & [= -> _] & _). }
  subst r2. destruct (Py.startswith species genus) eqn:Hpre.
  - apply startswith_iff in Hpre as [r ->]. rewrite getitem_app_length.
    destruct r as [|c rest]; simpl.
    + rewrite app_empty_r. split.
      * intros [= <-]. split; [done|]. by exists before, genus.
      * by intros [-> _].
    + assert (∀ res : result (list (string * string)),
                (∃ v, res = Ok v) → res = Raise e ↔
                e = IndexError ∧
                ∃ b g, before ++ [("genus", genus);
                                  ("species", genus +:+ String c rest)] =
                       b ++ [("genus", g); ("species", g)]) as Hok.
      { intros res [v ->]. split; [done|]. intros [_ (b & g & Heq)].
        apply snoc2_inj in Heq as (_ & [= ->] & [= Heq]).
        by apply app_ne_self in Heq. }
      apply Hok. destruct (Py.is_space_char c) eqn:Hc; simpl; [by eexists|].
      rewrite add_space_app, Hc. simpl. by eexists.
  - split; [done|]. intros [_ (b & g & Heq)].
    apply snoc2_inj in Heq as (_ & [= ->] & [= ->]).
    rewrite <-(app_empty_r g) in Hpre at 1.
    by rewrite startswith_app in Hpre.
Qed.

(** X24.  Parsing the classifications of a line raises [IndexError] in one
    case only: the last two classifications with a name are a genus and a
    species, and the species is the name of the genus, with nothing after
    it. *)
Theorem parse_classes_index_error classes otu_id :
  let split := (λ i, Py.split i "__") <$> Py.split classes ";" in
  _parse_classes classes otu_id = Raise IndexError ↔
  ∃ before genus,
    classifications split =
      Ok (before ++ [("genus", genus); ("species", genus)]).
Proof.
  intros split. unfold _parse_classes. fold split.
  destruct (classifications split) as [cls|e] eqn:Hcls; simpl.
  - pose proof (fix_species_raises cls IndexError) as Hfix.
    destruct (fix_species ((root_name, root_name) :: cls)) as [res|e] eqn:E;
      simpl.
    + split; [done|]. intros (before & genus & [= ->]).
      destruct Hfix as [_ Hfix]. discriminate Hfix. split; [done|]. eauto.
    + split.
      * intros [= ->]. destruct Hfix as [[_ (before & genus & ->)] _]; [done|].
        eauto.
      * intros (before & genus & [= ->]).
        destruct Hfix as [_ Hfix]. rewrite Hfix; [done|]. split; [done|]. eauto.
  - split; [|by intros (? & ? & ?)]. intros [= ->].
    by destruct (classifications_raises_inv _ _ Hcls)
      as [[? _]|(? & ? & ? & _)].
Qed.

(** *** The names of a parsed lineage *)

Lemma filter_Forall_named (items : list (list string)) :
  Forall (λ item, named item = true)
    (filter (λ item, Is_true (named item)) items).
Proof.
  apply Forall_forall. intros item [Hnamed _]%list_elem_of_filter.
  by apply Is_true_true.
Qed.

Lemma kept_named item entry :
  kept item entry → named item = true → entry.2 ≠ "".
Proof. intros (k & -> & _). simpl. by destruct (entry.2). Qed.

Lemma kept_names (items : list (list string)) cls :
  Forall2 kept items cls → Forall (λ item, named item = true) items →
  Forall (λ entry, entry.2 ≠ "") cls.
Proof.
  induction 1 as [|item entry items cls Hk _ IH]; [done|].
  intros [Hitem Hitems]%Forall_cons.
  constructor; [by eapply kept_named|by apply IH].
Qed.

Lemma parse_line_names line lineage :
  parse_line line = Ok lineage → Forall (λ entry, entry.2 ≠ "") lineage.
Proof.
  unfold parse_line.
  destruct (Py.split (Py.rstrip line) _) as [|text [|classes [|x l]]];
    try done.
  destruct (Py.int text) as [otu_id|]; [|done]. simpl.
  intros (cls & middle & _ & Hkept & -> & Hmiddle)%parse_classes_shape.
  assert (Forall (λ entry : string * string, entry.2 ≠ "") cls) as Hcls.
  { eapply kept_names; [done|]. apply filter_Forall_named. }
  constructor; [done|]. apply Forall_app. split.
  - destruct Hmiddle as [->|(before & genus & c & rest & -> & _ & ->)]; [done|].
    apply Forall_app in Hcls as [Hbefore Hlast]. apply Forall_app.
    split; [done|]. apply Forall_cons in Hlast as [Hgenus _].
    repeat constructor; [done|]. simpl. by destruct genus.
  - repeat constructor. apply str_not_empty.
Qed.

End parser_lines.

(** ** A whole load, from the archive to the cleaned store *)

Section whole_load.
Import Greengenes.
Implicit Types (st : loader) (c : db)
  (classes : list (string * string)) (parent : option string)
  (rows : list (result (list (string * string)))).

Lemma walk_None_Ok classes parent st :
  ∃ st', walk None classes parent st = Ok st'.
Proof.
  revert parent st. induction classes as [|[rank name] classes IH];
    intros parent st; [by eexists|].
  simpl. unfold _get_or_insert.
  destruct (select_tax_id (names (con st)) name); simpl; apply IH.
Qed.

Lemma load_loop_None rows st :
  match first_raise rows with
  | Some e => load_loop None rows st = Raise e
  | None => ∃ st', load_loop None rows st = Ok st'
  end.
Proof.
  revert st. induction rows as [|[classes|e] rows IH]; intros st; simpl;
    [by eexists| |done].
  destruct (walk_None_Ok classes None st) as [st1 ->]. simpl. apply IH.
Qed.

Lemma clean_species_total c :
  (∀ m, m ∈ names c → Name.tax_name m ≠ "") →
  raised (_clean_species c) = None.
Proof.
  intros Hnames. rewrite clean_species_unfold.
  pose proof (stage_all_raises (sorted_keys (dict (select_genus c))) []
                (select_candidates c)) as Hstage.
  destruct (stage_all _ [] (select_candidates c)) as [args|e]; [done|].
  destruct Hstage as [_ ([tax_id tax_name] & Hin & Hempty)%Exists_exists].
  apply select_candidates_iff in Hin
    as (_ & _ & sname & _ & _ & _ & Hsname & _ & _ & _ & _ & _ & _ & _ & ->).
  by destruct (Hnames sname Hsname).
Qed.

(** X25.  On an empty store that has no source row for greengenes,
    [db_load] raises when, and only when, a line of the archive is not
    parsed, and the exception is the one of the first such line; the store
    is then left empty, whatever came before that line.  When every line
    is parsed, neither the load nor the cleaning pass can fail. *)
Theorem db_load_raises archive src :
  _get_source_id (mkdb [] [] src) = None →
  let loaded := db_load (mkdb [] [] src) archive in
  raised loaded = first_raise (_parse_gg archive) ∧
  (∀ e, raised loaded = Some e → store loaded = mkdb [] [] src).
Proof.
  intros Hsrc. cbv zeta. unfold db_load, _load_rows. rewrite Hsrc.
  cbn [nodes names has_row orb negb]. set (c0 := mkdb [] [] src).
  pose proof (load_loop_None (_parse_gg archive) (mkloader c0 0)) as Hloop.
  destruct (first_raise (_parse_gg archive)) as [e|] eqn:Hfirst.
  { rewrite Hloop. cbn [raised store]. split; [done|]. done. }
  destruct Hloop as [st Hloop]. rewrite Hloop. cbn [raised store warnings].
  assert (raised (_clean_species (con st)) = None) as Hclean.
  { apply clean_species_total. intros m Hm Hempty.
    assert (Name.tax_name m ∈ Name.tax_name <$> names (con st)) as Hin.
    { apply list_elem_of_fmap. by exists m. }
    apply (load_loop_names _ _ _ _ _ Hloop) in Hin
      as [Hin|(classes & Hrow & Hname)]; [by apply elem_of_nil in Hin|].
    apply list_elem_of_fmap in Hrow as (line & Hline & _).
    symmetry in Hline. apply parse_line_names in Hline.
    apply list_elem_of_fmap in Hname as (entry & Hentry & Hin).
    rewrite Forall_forall in Hline. apply (Hline entry Hin). congruence. }
  rewrite Hclean. split; [done|]. done.
Qed.

Lemma db_load_raises_witness :
  let archive :=
    ["42" +:+ String "009"%char "k__Bacteria;g__Escherichia;s__Escherichiacoli";
     "43" +:+ String "009"%char "Bacteria"] in
  _get_source_id (mkdb [] [] []) = None ∧
  raised (db_load (mkdb [] [] []) archive) = first_raise (_parse_gg archive).
Proof.
  intros archive. split; [reflexivity|].
  apply (db_load_raises archive [] eq_refl).
Defined.

(** *** Stores that are not empty *)

Lemma clean_species_no_nodes c :
  nodes c = [] → _clean_species c = mkrun c [] None.
Proof.
  intros Hnodes. unfold _clean_species, select_candidates.
  rewrite Hnodes. simpl. destruct c as [nds nms src]. simpl in *. by subst.
Qed.

(** X26.  [db_load] looks at the table of the nodes only.  When that table
    has a row, the archive is not read at all, no warning is logged, and
    the call is the cleaning pass on the store.  When it has none but the
    table of the names has a row, the load is started and refused: the
    warning is logged and the store is left as it was, the cleaning pass
    finding no node to look at. *)
Theorem db_load_guards c archive :
  (has_row (nodes c) = true → db_load c archive = _clean_species c) ∧
  (nodes c = [] → has_row (names c) = true →
     db_load c archive =
       mkrun c ["nodes table has data. not updating."] None).
Proof.
  split.
  - intros Hnodes. unfold db_load. rewrite Hnodes. cbn [negb raised store].
    by destruct (_clean_species c).
  - intros Hnodes Hnames. unfold db_load. rewrite Hnodes. cbn [has_row negb].
    rewrite load_rows_guarded by by rewrite Hnodes, Hnames.
    cbn [raised store warnings]. by rewrite clean_species_no_nodes.
Qed.

(** *** The source of the nodes *)

Lemma load_loop_source rows source_id st st' :
  load_loop source_id rows st = Ok st' →
  Forall (λ n, Node.source_id n = None) (nodes (con st)) →
  Forall (λ n, Node.source_id n = None) (nodes (con st')).
Proof.
  assert (∀ classes parent st st',
            walk source_id classes parent st = Ok st' →
            Forall (λ n, Node.source_id n = None) (nodes (con st)) →
            Forall (λ n, Node.source_id n = None) (nodes (con st'))) as Hwalk.
  { clear. induction classes as [|[rank name] classes IH]; intros parent st st'.
    { by intros [= <-]. }
    intros (st1 & tax_id & Hins & Hwalk)%walk_cons Hst.
    apply (IH _ _ _ Hwalk).
    apply get_or_insert_Ok in Hins as [[_ ->]|(_ & _ & ->)]; [done|].
    cbn [con nodes]. apply Forall_app. split; [done|]. by repeat constructor. }
  revert st. induction rows as [|[classes|e] rows IH]; intros st.
  - by intros [= <-].
  - intros (st1 & Hw & Hloop)%load_loop_cons Hst.
    apply (IH _ Hloop). by eapply Hwalk.
  - done.
Qed.

(** X27.  The loader never records the source: whatever the rows and the
    table of the sources, every node that a load into an empty store
    leaves has no source id. *)
Theorem loaded_nodes_without_source rows src n :
  n ∈ nodes (store (_load_rows rows (mkdb [] [] src))) →
  Node.source_id n = None.
Proof.
  unfold _load_rows. cbn [nodes names has_row orb].
  destruct (load_loop _ rows _) as [st|e] eqn:Hloop; cbn [store].
  - apply load_loop_source in Hloop; [|by constructor].
    rewrite Forall_forall in Hloop. apply Hloop.
  - by intros ?%elem_of_nil.
Qed.

Lemma loaded_nodes_without_source_witness :
  let rows := [Ok [("root", "root"); ("kingdom", "Bacteria")]] in
  let n := Node.mk "GG00000001" "GG00000000" "kingdom" None in
  n ∈ nodes (store (_load_rows rows (mkdb [] [] [(1%Z, "ncbi")]))) ∧
  Node.source_id n = None.
Proof.
  intros rows n.
  assert (n ∈ nodes (store (_load_rows rows (mkdb [] [] [(1%Z, "ncbi")]))))
    as Hn.
  { vm_compute. right. left. }
  split; [exact Hn|].
  apply (loaded_nodes_without_source rows [(1%Z, "ncbi")] n Hn).
Defined.

End whole_load.
